(** * Shallow embedding of the GAA fixture reconciliation engine

    The modules of [backend/] that decide which fixtures are published:
    text normalisation ([normalise.py]), merge and dedupe ([merge.py]),
    the placeholder classifier, the windowing of [main.build_cmd] and the
    date and time helpers of [utils.py].

    Text is modelled as [String.string].  The embedding covers 7-bit text:
    on characters below 128 Unicode decomposition (NFD / NFKD) is the
    identity and the ASCII encoding drops nothing, so [strip_diacritics]
    only drops bytes from 128 up (the decomposed base letters of accented
    characters are outside the model).  Python exceptions ([ValueError]
    of [int], [OverflowError] of date arithmetic) are [None]. *)

From Stdlib Require Import ZArith List String Ascii Bool Lia Permutation Sorting.Sorted.
Import ListNotations.
Open Scope string_scope.
Open Scope Z_scope.

(* ------------------------------------------------------------------ *)
(** ** Characters *)

Definition code (c : ascii) : Z := Z.of_N (N_of_ascii c).

(** [str.isspace] / regex [\s] on 7-bit text: [\t\n\v\f\r], [\x1c]..[\x1f]
    and the space. *)
Definition py_isspace (c : ascii) : bool :=
  let n := code c in ((9 <=? n) && (n <=? 13)) || ((28 <=? n) && (n <=? 32)).

Definition is_digit (c : ascii) : bool := let n := code c in (48 <=? n) && (n <=? 57).
Definition is_lower (c : ascii) : bool := let n := code c in (97 <=? n) && (n <=? 122).
Definition is_upper (c : ascii) : bool := let n := code c in (65 <=? n) && (n <=? 90).

(** regex [\w] *)
Definition is_word (c : ascii) : bool :=
  is_digit c || is_lower c || is_upper c || (code c =? 95).

Definition lower_char (c : ascii) : ascii :=
  if is_upper c then ascii_of_N (Z.to_N (code c + 32)) else c.

(** [str.lower] *)
Fixpoint lower (s : string) : string :=
  match s with
  | EmptyString => EmptyString
  | String c s' => String (lower_char c) (lower s')
  end.

(** [unicodedata.normalize("NFD", s).encode("ascii", "ignore").decode("ascii")] *)
Fixpoint strip_diacritics (s : string) : string :=
  match s with
  | EmptyString => EmptyString
  | String c s' =>
      if code c <? 128 then String c (strip_diacritics s') else strip_diacritics s'
  end.

Fixpoint lstrip_by (p : ascii -> bool) (s : string) : string :=
  match s with
  | EmptyString => EmptyString
  | String c s' => if p c then lstrip_by p s' else s
  end.

Fixpoint rev_str (s : string) : string :=
  match s with
  | EmptyString => EmptyString
  | String c s' => rev_str s' ++ String c EmptyString
  end.

(** [str.strip(chars)] for a character predicate *)
Definition strip_by (p : ascii -> bool) (s : string) : string :=
  rev_str (lstrip_by p (rev_str (lstrip_by p s))).

(** [str.strip()] *)
Definition strip (s : string) : string := strip_by py_isspace s.

(** [re.sub(r"<class>+", rep, s)]: every maximal run of characters of the
    class is replaced by [rep]. *)
Fixpoint sub_runs (p : ascii -> bool) (rep : string) (in_run : bool) (s : string)
  : string :=
  match s with
  | EmptyString => EmptyString
  | String c s' =>
      if p c then
        if in_run then sub_runs p rep true s' else rep ++ sub_runs p rep true s'
      else String c (sub_runs p rep false s')
  end.

(** [re.sub(r"<class>", "", s)] *)
Fixpoint remove_chars (p : ascii -> bool) (s : string) : string :=
  match s with
  | EmptyString => EmptyString
  | String c s' => if p c then remove_chars p s' else String c (remove_chars p s')
  end.

(** the class [[^a-z0-9\s-]] *)
Definition non_alnum (c : ascii) : bool :=
  negb (is_lower c || is_digit c || py_isspace c || (code c =? 45)).

Definition is_dash (c : ascii) : bool := code c =? 45.

(* ------------------------------------------------------------------ *)
(** ** [normalise.py] *)

(** [norm_text] *)
Definition norm_text (s : string) : string :=
  let s := lower s in
  let s := strip_diacritics s in
  let s := sub_runs non_alnum " " false s in
  let s := sub_runs py_isspace " " false s in
  strip s.

(** [str.split(sep)] for a one-character separator *)
Fixpoint split_on (sep : ascii) (s : string) : list string :=
  match s with
  | EmptyString => [EmptyString]
  | String c s' =>
      match split_on sep s' with
      | [] => []
      | w :: ws => if Ascii.eqb c sep then EmptyString :: w :: ws else String c w :: ws
      end
  end.

(** [sep.join(ws)] *)
Fixpoint join (sep : string) (ws : list string) : string :=
  match ws with
  | [] => EmptyString
  | [w] => w
  | w :: ws' => w ++ sep ++ join sep ws'
  end.

(** [dict.get(k, default)] on a dict given by its items *)
Fixpoint dict_get (d : list (string * string)) (k dflt : string) : string :=
  match d with
  | [] => dflt
  | (k', v) :: d' => if String.eqb k k' then v else dict_get d' k dflt
  end.

Section Tokens.

(** [IRISH_TO_ENGLISH] of [backend/irish_map.py] (not among the sources) is
    only read through [IRISH_TO_ENGLISH.get(tok, tok)]; it is a parameter,
    so every result below holds for every table. *)
Variable IRISH_TO_ENGLISH : list (string * string).

(** [map_irish_tokens] *)
Definition map_irish_tokens (s : string) : string :=
  let tokens := split_on " "%char (norm_text s) in
  join " " (map (fun tok => dict_get IRISH_TO_ENGLISH tok tok) tokens).

(** [merge._norm_team] *)
Definition norm_team (s : string) : string := norm_text (map_irish_tokens s).

End Tokens.

(** [utils.slugify] *)
Definition slugify (value : string) : string :=
  let value := strip_diacritics value in
  let value := lower value in
  let value := remove_chars non_alnum value in
  let value := sub_runs py_isspace "-" false value in
  let value := strip_by is_dash value in
  sub_runs is_dash "-" false value.

(* ------------------------------------------------------------------ *)
(** ** [int(str)] and the time bucket *)

Definition digit_val (c : ascii) : Z := code c - 48.

(** digits with single underscores between them, as [int] accepts *)
Fixpoint digits_ok (prev_digit : bool) (s : string) : bool :=
  match s with
  | EmptyString => prev_digit
  | String c s' =>
      if is_digit c then digits_ok true s'
      else if (code c =? 95) && prev_digit then
        match s' with
        | String d _ => is_digit d && digits_ok false s'
        | EmptyString => false
        end
      else false
  end.

Fixpoint digits_val (acc : Z) (s : string) : Z :=
  match s with
  | EmptyString => acc
  | String c s' =>
      if is_digit c then digits_val (10 * acc + digit_val c) s' else digits_val acc s'
  end.

Fixpoint digit_count (s : string) : Z :=
  match s with
  | EmptyString => 0
  | String c s' => if is_digit c then 1 + digit_count s' else digit_count s'
  end.

(** [sys.get_int_max_str_digits()]: [int] refuses a decimal string of more
    digits (Python 3.11, 3.10.7; default 4300, underscores not counted) *)
Definition int_max_str_digits : Z := 4300.

Definition parse_digits (s : string) : option Z :=
  if digits_ok false s && (digit_count s <=? int_max_str_digits)
  then Some (digits_val 0 s) else None.

(** [int(s)] for a [str] argument; [None] is the [ValueError]. *)
Definition py_int (s : string) : option Z :=
  match strip s with
  | String c r =>
      if code c =? 43 then parse_digits r
      else if code c =? 45 then option_map Z.opp (parse_digits r)
      else parse_digits (String c r)
  | EmptyString => None
  end.

(** [merge._minutes]: [h, m = hhmm.split(":")] unpacks exactly two parts. *)
Definition minutes (hhmm : string) : option Z :=
  match split_on ":"%char hhmm with
  | [h; m] =>
      match py_int h, py_int m with
      | Some h', Some m' => Some (h' * 60 + m')
      | _, _ => None
      end
  | _ => None
  end.

(** [n / d] rounded to the nearest integer, ties to even ([d > 0]) *)
Definition round_div (n d : Z) : Z :=
  let q := n / d in
  let r := n mod d in
  if 2 * r <? d then q
  else if d <? 2 * r then q + 1
  else if Z.even q then q else q + 1.

(** [d * 2^e <= a], for an exponent [e] of either sign *)
Definition ge_pow (a d e : Z) : bool :=
  if 0 <=? e then d * 2 ^ e <=? a else d <=? a * 2 ^ (- e).

(** [n / d] for Python ints, [d > 0]: the binary64 float nearest to the
    exact quotient, ties to even, as [m * 2^e] with [|m| < 2^53];
    [None] is the [OverflowError] of a quotient that rounds to [2^1024]
    or beyond. Here [|n / d| >= 1 / d] whenever [n <> 0], so for the
    divisor 5 of [_best_time_bucket] the result is never subnormal, and
    subnormals are left out. *)
Definition py_true_div (n d : Z) : option (Z * Z) :=
  if n =? 0 then Some (0, 0) else
  let a := Z.abs n in
  let k0 := Z.log2 a - Z.log2 d in
  let k := if ge_pow a d k0 then k0 else k0 - 1 in
  let e := k - 52 in
  let s := if 0 <=? e then round_div a (d * 2 ^ e) else round_div (a * 2 ^ (- e)) d in
  if (1024 <=? k) || ((k =? 1023) && (s =? 2 ^ 53)) then None
  else Some (Z.sgn n * s, e).

(** [round(x)] of the float [m * 2^e]: the nearest int, ties to even *)
Definition py_round_float (x : Z * Z) : Z :=
  let (m, e) := x in
  if 0 <=? e then m * 2 ^ e else round_div m (2 ^ (- e)).

(** [merge._best_time_bucket]: [round(mins / 5) * 5] *)
Definition best_time_bucket (hhmm : string) : option Z :=
  match minutes hhmm with
  | Some mins =>
      match py_true_div mins 5 with
      | Some x => Some (py_round_float x * 5)
      | None => None
      end
  | None => None
  end.

(* ------------------------------------------------------------------ *)
(** ** [models.Fixture] *)

Inductive Status := Scheduled | FT | PP.

Definition status_eqb (a b : Status) : bool :=
  match a, b with
  | Scheduled, Scheduled | FT, FT | PP, PP => true
  | _, _ => false
  end.

Record Fixture := mkFixture {
  id : string;
  date : string;          (* YYYY-MM-DD (Europe/London) *)
  time : string;          (* HH:mm (24h) *)
  competition : string;
  home : string;
  away : string;
  venue : option string;
  status : Status;
  score : option string;
  source : string;        (* "gaa_gms" | "clubzap" | "ics" | "scraper" *)
  updated_at : string;    (* ISO8601 Z *)
  search_index : option string
}.

(** truthiness of an [Optional[str]] *)
Definition truthy (o : option string) : bool :=
  match o with
  | Some s => negb (String.eqb s EmptyString)
  | None => false
  end.

(* ------------------------------------------------------------------ *)
(** ** Python's [list.sort] and ordered [defaultdict(list)] *)

(** A stable sort: [before y x] holds when [y] must come strictly before
    [x].  [list.sort(key=k)] is [sort_by] with [before y x := k y < k x];
    [list.sort(key=k, reverse=True)] keeps stability, so it is [sort_by]
    with [before y x := k x < k y].  The result of a stable sort under a
    total preorder is unique, so insertion sort stands for Timsort. *)
Fixpoint insert_by {A} (before : A -> A -> bool) (x : A) (l : list A) : list A :=
  match l with
  | [] => [x]
  | y :: l' => if before y x then y :: insert_by before x l' else x :: l
  end.

Fixpoint sort_by {A} (before : A -> A -> bool) (l : list A) : list A :=
  match l with
  | [] => []
  | x :: l' => insert_by before x (sort_by before l')
  end.

(** Python tuple comparison of [(str, str)] *)
Definition cmp_str2 (a b : string * string) : comparison :=
  match String.compare (fst a) (fst b) with
  | Eq => String.compare (snd a) (snd b)
  | c => c
  end.

(** [key=lambda f: (f.date, f.time)], ascending *)
Definition chrono_before (y x : Fixture) : bool :=
  match cmp_str2 (date y, time y) (date x, time x) with Lt => true | _ => false end.

Definition sort_chrono (l : list Fixture) : list Fixture := sort_by chrono_before l.

Section Grouping.
Context {K A : Type} (keqb : K -> K -> bool).

(** [by_key[k].append(a)] on a dict that keeps insertion order *)
Fixpoint add_to_group (k : K) (a : A) (gs : list (K * list A)) : list (K * list A) :=
  match gs with
  | [] => [(k, [a])]
  | (k', g) :: gs' =>
      if keqb k k' then (k', (g ++ [a])%list) :: gs' else (k', g) :: add_to_group k a gs'
  end.

Definition group_by (kxs : list (K * A)) : list (K * list A) :=
  fold_left (fun gs ka => add_to_group (fst ka) (snd ka) gs) kxs [].

End Grouping.

(** [mapM] in the option monad: the [for] loop stops at the first raise *)
Fixpoint map_opt {A B} (f : A -> option B) (l : list A) : option (list B) :=
  match l with
  | [] => Some []
  | x :: l' =>
      match f x, map_opt f l' with
      | Some y, Some ys => Some (y :: ys)
      | _, _ => None
      end
  end.

(* ------------------------------------------------------------------ *)
(** ** [merge.py]: [dedupe] *)

(** [SOURCE_PRIORITY.get(source, -1)] *)
Definition source_priority (src : string) : Z :=
  if String.eqb src "gaa_gms" then 3
  else if String.eqb src "clubzap" then 2
  else if String.eqb src "ics" then 1
  else if String.eqb src "scraper" then 0
  else -1.

(** [_completeness_points] *)
Definition completeness_points (f : Fixture) : Z :=
  (if truthy (venue f) then 1 else 0)
  + (if status_eqb (status f) FT then 3 else 0)
  + (if truthy (score f) then 2 else 0).

(** the sort key [(SOURCE_PRIORITY.get(x.source, -1), _completeness_points(x), x.updated_at)] *)
Definition prio_key (f : Fixture) : Z * Z * string :=
  (source_priority (source f), completeness_points f, updated_at f).

(** Python tuple comparison of [(int, int, str)] *)
Definition cmp_prio (a b : Z * Z * string) : comparison :=
  match a, b with
  | (p1, c1, u1), (p2, c2, u2) =>
      match Z.compare p1 p2 with
      | Eq => match Z.compare c1 c2 with Eq => String.compare u1 u2 | c => c end
      | c => c
      end
  end.

(** [group.sort(key=..., reverse=True)] *)
Definition prio_before (y x : Fixture) : bool :=
  match cmp_prio (prio_key y) (prio_key x) with Gt => true | _ => false end.

Definition Key : Type := string * Z * string * string * string.

Definition key_eqb (a b : Key) : bool :=
  match a, b with
  | (d1, t1, h1, a1, c1), (d2, t2, h2, a2, c2) =>
      String.eqb d1 d2 && Z.eqb t1 t2 && String.eqb h1 h2 && String.eqb a1 a2
      && String.eqb c1 c2
  end.

Section Dedupe.
Variable IRISH_TO_ENGLISH : list (string * string).

(** [key = (f.date, _best_time_bucket(f.time), _norm_team(f.home),
    _norm_team(f.away), slugify(f.competition))] *)
Definition fixture_key (f : Fixture) : option Key :=
  match best_time_bucket (time f) with
  | Some b =>
      Some (date f, b, norm_team IRISH_TO_ENGLISH (home f),
            norm_team IRISH_TO_ENGLISH (away f), slugify (competition f))
  | None => None
  end.

Definition keyed (fixtures : list Fixture) : option (list (Key * Fixture)) :=
  map_opt (fun f => option_map (fun k => (k, f)) (fixture_key f)) fixtures.

(** [group.sort(...); chosen = group[0]] (groups are never empty) *)
Definition choose (group : list Fixture) : list Fixture :=
  match sort_by prio_before group with
  | [] => []
  | chosen :: _ => [chosen]
  end.

(** [dedupe] *)
Definition dedupe (fixtures : list Fixture) : option (list Fixture) :=
  match keyed fixtures with
  | None => None
  | Some kxs =>
      let by_key := group_by key_eqb kxs in
      let merged := flat_map (fun kg => choose (snd kg)) by_key in
      Some (sort_chrono merged)
  end.

End Dedupe.

(* ------------------------------------------------------------------ *)
(** ** [merge.py]: [collapse_future_duplicates] *)

Fixpoint mem_str (x : string) (l : list string) : bool :=
  match l with [] => false | y :: l' => String.eqb x y || mem_str x l' end.

Definition pair_eqb (a b : string * string) : bool :=
  String.eqb (fst a) (fst b) && String.eqb (snd a) (snd b).

Section Collapse.
Variable IRISH_TO_ENGLISH : list (string * string).

Definition pair_key (f : Fixture) : string * string :=
  (norm_team IRISH_TO_ENGLISH (home f), norm_team IRISH_TO_ENGLISH (away f)).

(** [keep_ids]: per group, the id of its only item, or of the first item
    of the group sorted by [(date, time)] *)
Definition keep_id (items : list Fixture) : list string :=
  match items with
  | [x] => [id x]
  | _ => match sort_chrono items with [] => [] | first :: _ => [id first] end
  end.

(** [collapse_future_duplicates] *)
Definition collapse_future_duplicates (fixtures : list Fixture) : list Fixture :=
  let groups := group_by pair_eqb
    (map (fun f => (pair_key f, f)) (filter (fun f => negb (status_eqb (status f) FT)) fixtures)) in
  let keep_ids := flat_map (fun kg => keep_id (snd kg)) groups in
  let in_groups k := existsb (fun kg => pair_eqb k (fst kg)) groups in
  let out := filter (fun f =>
      let key := pair_key f in
      status_eqb (status f) FT || (in_groups key && mem_str (id f) keep_ids)
      || negb (in_groups key)) fixtures in
  sort_chrono out.

End Collapse.

(* ------------------------------------------------------------------ *)
(** ** [merge.py]: [popularity_score] *)

Fixpoint prefixb (p s : string) : bool :=
  match p, s with
  | EmptyString, _ => true
  | String a p', String b s' => Ascii.eqb a b && prefixb p' s'
  | _, _ => false
  end.

(** Python's [needle in hay] on strings *)
Fixpoint contains (needle hay : string) : bool :=
  prefixb needle hay ||
  match hay with EmptyString => false | String _ h => contains needle h end.

(** [any(x in t for x in xs)] *)
Definition contains_any (xs : list string) (t : string) : bool :=
  existsb (fun x => contains x t) xs.

Definition popularity_score (name : string) : Z :=
  let t := lower name in
  (if contains "all-ireland" t then 100 else 0)
  + (if contains_any ["ulster"; "munster"; "leinster"; "connacht"; "provincial"] t then 80 else 0)
  + (if contains_any ["national league"; "nfl"; "nhl"] t then 70 else 0)
  + (if contains "senior championship" t then 60 else 0)
  + (if contains "intermediate" t then 50 else 0)
  + (if contains "junior" t then 40 else 0)
  + (if contains_any ["division"; "league"] t then 30 else 0)
  + (if contains "friendly" t then 10 else 0).

(* ------------------------------------------------------------------ *)
(** ** Regular expressions of [normalise.py]

    A pattern denotes, at each start position, the list of end positions
    of its matches.  [re.search] succeeds when some start position has an
    end position and [re.match] when position 0 has one; which match the
    backtracking engine reports does not matter for these boolean uses. *)

Inductive regex :=
  | RChar (p : ascii -> bool)   (* one character of a class *)
  | RSeq (r1 r2 : regex)
  | RAlt (r1 r2 : regex)
  | RStar (r : regex)
  | RBol                        (* ^ *)
  | REol                        (* $ : the end, or before a final newline *)
  | RWordB                      (* \b *)
  | REps.

Definition char_at (s : string) (i : nat) : option ascii := String.get i s.

Definition word_at (s : string) (i : nat) : bool :=
  match char_at s i with Some c => is_word c | None => false end.

Fixpoint ends (r : regex) (s : string) (i : nat) : list nat :=
  match r with
  | RChar p => match char_at s i with Some c => if p c then [S i] else [] | None => [] end
  | RSeq r1 r2 => flat_map (ends r2 s) (ends r1 s i)
  | RAlt r1 r2 => (ends r1 s i ++ ends r2 s i)%list
  | RStar r1 =>
      (fix star (fuel : nat) (j : nat) : list nat :=
         match fuel with
         | O => [j]
         | S fuel' => j :: flat_map (fun k => if Nat.ltb j k then star fuel' k else [])
                              (ends r1 s j)
         end) (S (String.length s)) i
  | RBol => if Nat.eqb i 0 then [i] else []
  | REol =>
      if Nat.eqb i (String.length s) then [i]
      else if Nat.eqb (S i) (String.length s) &&
              match char_at s i with Some c => code c =? 10 | None => false end
           then [i] else []
  | RWordB =>
      let before := match i with O => false | S j => word_at s j end in
      if xorb before (word_at s i) then [i] else []
  | REps => [i]
  end.

Definition re_search (r : regex) (s : string) : bool :=
  existsb (fun i => match ends r s i with [] => false | _ => true end)
          (seq 0 (S (String.length s))).

Definition re_match (r : regex) (s : string) : bool :=
  match ends r s 0 with [] => false | _ => true end.

(** building blocks, all under [re.I] *)
Definition ci (c : ascii) : regex := RChar (fun x => Ascii.eqb (lower_char x) c).
Definition exact (c : ascii) : regex := RChar (fun x => Ascii.eqb x c).
Fixpoint lit (w : string) : regex :=
  match w with
  | EmptyString => REps
  | String c w' => RSeq (if is_lower c then ci c else exact c) (lit w')
  end.
Fixpoint alts (rs : list regex) : regex :=
  match rs with [] => RChar (fun _ => false) | [r] => r | r :: rs' => RAlt r (alts rs') end.
Definition plus (r : regex) : regex := RSeq r (RStar r).
Definition ws_star : regex := RStar (RChar py_isspace).
Definition digit_re : regex := RChar is_digit.
(** [[a-z]] under [re.I] *)
Definition letter_re : regex := RChar (fun x => is_lower (lower_char x)).
Definition any_but_nl : regex := RChar (fun x => negb (code x =? 10)).

(** [_PLACEHOLDER_SIMPLE] *)
Definition placeholder_simple : regex :=
  RSeq (RAlt RBol RWordB)
   (RSeq (alts [lit "tbd"; lit "tba"; lit "tbc"; lit "bye"; lit "unknown";
                RSeq (lit "to be ") (RAlt (lit "confirmed") (lit "decided"))])
         (RAlt REol RWordB)).

(** [_PLACEHOLDER_STAGE] *)
Definition placeholder_stage : regex :=
  alts [RSeq (lit "quarter") (RSeq ws_star (lit "final"));
        RSeq (lit "semi") (RSeq ws_star (lit "final"));
        lit "final"; lit "prelim"; lit "preliminary"; lit "qualifier";
        RSeq (lit "play") (RSeq (RAlt (RChar (fun x => (code x =? 45) || (code x =? 32))) REps)
                                (lit "off"));
        RSeq (lit "round") (RSeq ws_star (plus digit_re))].

(** [_PLACEHOLDER_GROUP] *)
Definition placeholder_group : regex :=
  alts [RSeq (lit "group") (RSeq ws_star letter_re);
        RSeq (lit "group") (RSeq ws_star (plus digit_re));
        RSeq (lit "pool") (RSeq ws_star letter_re);
        RSeq (lit "pool") (RSeq ws_star (plus digit_re))].

(** [_PLACEHOLDER_SHORT] *)
Definition placeholder_short : regex :=
  RSeq (RAlt RBol RWordB)
   (RSeq (alts [lit "qf"; lit "sf"; lit "rf";
                RSeq (ci "r"%char) (RSeq digit_re (RAlt digit_re REps))])
         (RAlt RWordB REol)).

(** [r"^[^vvs]+/.+$"] under [re.I] *)
Definition slash_pair : regex :=
  RSeq RBol (RSeq (plus (RChar (fun x => negb (Ascii.eqb (lower_char x) "v"%char
                                               || Ascii.eqb (lower_char x) "s"%char))))
            (RSeq (exact "/"%char) (RSeq (plus any_but_nl) REol))).

(** [r"\b(v|vs|versus)\b"] under [re.I] *)
Definition versus_word : regex :=
  RSeq RWordB (RSeq (alts [lit "v"; lit "vs"; lit "versus"]) RWordB).

Definition ph_words : list string :=
  ["winner"; "loser"; "runner-up"; "runner up"; "runners-up"; "runners up"; "top team";
   "first place"; "second place"; "third place"; "4th place"; "1st place"; "2nd place";
   "3rd place"].

(** [is_placeholder_team] *)
Definition is_placeholder_team (name : string) : bool :=
  if String.eqb name EmptyString then true else
  let raw := strip name in
  let s := lower (strip_diacritics raw) in
  if re_search placeholder_simple raw then true
  else if contains_any ph_words s then true
  else if re_search placeholder_stage s then true
  else if re_search placeholder_group s then true
  else if re_search placeholder_short s then true
  else if re_match slash_pair raw && negb (re_search versus_word raw) then true
  else false.

(* ------------------------------------------------------------------ *)
(** ** Calendar dates ([datetime.date]) *)

Record Date := mkDate { year : Z; month : Z; day : Z }.

Definition is_leap (y : Z) : bool :=
  ((y mod 4 =? 0) && negb (y mod 100 =? 0)) || (y mod 400 =? 0).

Definition days_in_month (y m : Z) : Z :=
  if m =? 2 then (if is_leap y then 29 else 28)
  else if (m =? 4) || (m =? 6) || (m =? 9) || (m =? 11) then 30
  else 31.

Definition valid_date (d : Date) : Prop :=
  1 <= year d <= 9999 /\ 1 <= month d <= 12 /\ 1 <= day d <= days_in_month (year d) (month d).

Definition next_day (d : Date) : option Date :=
  if day d <? days_in_month (year d) (month d) then Some (mkDate (year d) (month d) (day d + 1))
  else if month d <? 12 then Some (mkDate (year d) (month d + 1) 1)
  else if year d <? 9999 then Some (mkDate (year d + 1) 1 1)
  else None.

Definition prev_day (d : Date) : option Date :=
  if 1 <? day d then Some (mkDate (year d) (month d) (day d - 1))
  else if 1 <? month d then Some (mkDate (year d) (month d - 1) (days_in_month (year d) (month d - 1)))
  else if 1 <? year d then Some (mkDate (year d - 1) 12 31)
  else None.

Fixpoint iter_opt {A} (f : A -> option A) (n : nat) (x : A) : option A :=
  match n with
  | O => Some x
  | S n' => match f x with Some y => iter_opt f n' y | None => None end
  end.

(** [d + timedelta(days=n)] ([fromordinal(toordinal() + n)]), one day at a
    time; [None] is the [OverflowError] outside the years 1..9999. *)
Definition add_days (d : Date) (n : Z) : option Date :=
  if 0 <=? n then iter_opt next_day (Z.to_nat n) d else iter_opt prev_day (Z.to_nat (- n)) d.

Definition digit_char (k : Z) : ascii := ascii_of_N (Z.to_N (48 + k)).

(** ["%0<n>d" % v] for [0 <= v < 10 ^ n] *)
Fixpoint pad (n : nat) (v : Z) : string :=
  match n with
  | O => EmptyString
  | S n' => pad n' (v / 10) ++ String (digit_char (v mod 10)) EmptyString
  end.

(** [date.isoformat()] *)
Definition iso_date (d : Date) : string :=
  pad 4 (year d) ++ "-" ++ pad 2 (month d) ++ "-" ++ pad 2 (day d).

(** Python's [a <= b] on strings *)
Definition str_le (a b : string) : bool :=
  match String.compare a b with Gt => false | _ => true end.

(** the calendar order on dates (Python's [date] comparison) *)
Definition date_cmp (a b : Date) : comparison :=
  match Z.compare (year a) (year b) with
  | Eq => match Z.compare (month a) (month b) with Eq => Z.compare (day a) (day b) | c => c end
  | c => c
  end.

Definition date_le (a b : Date) : Prop := date_cmp a b <> Gt.

(** a serial number with the calendar order on valid dates *)
Definition date_ord (d : Date) : Z := (year d * 16 + month d) * 32 + day d.

(* ------------------------------------------------------------------ *)
(** ** Windowing in [main.build_cmd] *)

Record Config := mkConfig {
  days_forward : Z;
  results_days_back : Z;
  scraper_days_forward : Z;
  results_fallback_days : Z
}.

Definition score_text (f : Fixture) : string :=
  match score f with Some s => s | None => EmptyString end.

(** [candidates.sort(key=lambda x: (x.date, x.time), reverse=True)] *)
Definition chrono_desc_before (y x : Fixture) : bool :=
  match cmp_str2 (date y, time y) (date x, time x) with Gt => true | _ => false end.

Definition in_upcoming (start_fixtures end_fixtures end_fixtures_scraper : string)
  (f : Fixture) : bool :=
  str_le start_fixtures (date f) &&
  (str_le (date f) end_fixtures ||
   (String.eqb (source f) "scraper" && str_le (date f) end_fixtures_scraper)).

Definition in_recent (start_results end_results : string) (f : Fixture) : bool :=
  str_le start_results (date f) && str_le (date f) end_results &&
  (status_eqb (status f) FT || negb (String.eqb (strip (score_text f)) EmptyString)).

(** [upcoming] and [recent] (with its fallback); [today] is the date of
    [datetime.utcnow()]. *)
Definition select_windows (cfg : Config) (today : Date) (merged : list Fixture)
  : option (list Fixture * list Fixture) :=
  match add_days today (- results_days_back cfg), add_days today (days_forward cfg),
        add_days today (scraper_days_forward cfg) with
  | Some sr, Some ef, Some es =>
      let start_results := iso_date sr in
      let end_results := iso_date today in
      let start_fixtures := iso_date today in
      let end_fixtures := iso_date ef in
      let end_fixtures_scraper := iso_date es in
      let upcoming := filter (in_upcoming start_fixtures end_fixtures end_fixtures_scraper) merged in
      let recent := filter (in_recent start_results end_results) merged in
      match recent with
      | [] =>
          match add_days today (- results_fallback_days cfg) with
          | Some co =>
              let cutoff := iso_date co in
              let candidates :=
                filter (fun f => status_eqb (status f) FT && str_le cutoff (date f)) merged in
              Some (upcoming, firstn 50 (sort_by chrono_desc_before candidates))
          | None => None
          end
      | _ => Some (upcoming, recent)
      end
  | _, _, _ => None
  end.

(* ------------------------------------------------------------------ *)
(** ** Date-times, [utils.iso_z] and [competitions_from_fixtures] *)

(** days since 1970-01-01 of a proleptic Gregorian date *)
Definition days_from_civil (d : Date) : Z :=
  let y := if month d <=? 2 then year d - 1 else year d in
  let era := y / 400 in
  let yoe := y - era * 400 in
  let mp := (month d + 9) mod 12 in
  let doy := (153 * mp + 2) / 5 + day d - 1 in
  let doe := yoe * 365 + yoe / 4 - yoe / 100 + doy in
  era * 146097 + doe - 719468.

Definition civil_from_days (z : Z) : Date :=
  let z := z + 719468 in
  let era := z / 146097 in
  let doe := z - era * 146097 in
  let yoe := (doe - doe / 1460 + doe / 36524 - doe / 146096) / 365 in
  let y := yoe + era * 400 in
  let doy := doe - (365 * yoe + yoe / 4 - yoe / 100) in
  let mp := (5 * doy + 2) / 153 in
  let d := doy - (153 * mp + 2) / 5 + 1 in
  let m := if mp <? 10 then mp + 3 else mp - 9 in
  mkDate (if m <=? 2 then y + 1 else y) m d.

(** a naive [datetime]: date, hour, minute, second *)
Definition DateTime : Type := Date * Z * Z * Z.

(** wall-clock seconds of a naive datetime, counted as if it were UTC *)
Definition wall_seconds (dt : DateTime) : Z :=
  match dt with (d, hh, mi, ss) => days_from_civil d * 86400 + hh * 3600 + mi * 60 + ss end.

Definition fixed_digits (s : string) : option Z :=
  if negb (String.eqb s EmptyString) && forallb is_digit (list_ascii_of_string s)
  then Some (digits_val 0 s) else None.

(** [datetime.fromisoformat] on the extended form [YYYY-MM-DDTHH:MM:SS],
    the form [f"{date}T{time}:00"] takes for an ["HH:MM"] time; [None] is
    the [ValueError]. Python also reads shorter times and UTC offsets,
    which this model reports as the error. *)
Definition fromisoformat (s : string) : option DateTime :=
  let at_ i c := match String.get i s with Some x => Ascii.eqb x c | None => false end in
  if (String.length s =? 19)%nat && at_ 4%nat "-"%char && at_ 7%nat "-"%char
     && at_ 10%nat "T"%char && at_ 13%nat ":"%char && at_ 16%nat ":"%char then
    match fixed_digits (substring 0 4 s), fixed_digits (substring 5 2 s),
          fixed_digits (substring 8 2 s), fixed_digits (substring 11 2 s),
          fixed_digits (substring 14 2 s), fixed_digits (substring 17 2 s) with
    | Some y, Some mo, Some d, Some hh, Some mi, Some ss =>
        if (1 <=? y) && (1 <=? mo) && (mo <=? 12) && (1 <=? d) && (d <=? days_in_month y mo)
           && (hh <? 24) && (mi <? 60) && (ss <? 60)
        then Some (mkDate y mo d, hh, mi, ss) else None
    | _, _, _, _, _, _ => None
    end
  else None.

(** [datetime.isoformat()] of an aware UTC datetime, ["+00:00"] written ["Z"] *)
Definition format_utc (u : Z) : string :=
  let secs := u mod 86400 in
  iso_date (civil_from_days (u / 86400)) ++ "T" ++ pad 2 (secs / 3600) ++ ":"
  ++ pad 2 ((secs mod 3600) / 60) ++ ":" ++ pad 2 (secs mod 60) ++ "Z".

Record Competition := mkCompetition {
  name : string;
  slug : string;
  popularity : Z;
  match_count : Z;
  first_kickoff : string
}.

(** [out.sort(key=lambda c: (-c.popularity, -c.match_count, c.first_kickoff))],
    the same [(int, int, str)] tuple comparison as [cmp_prio] *)
Definition comp_key (c : Competition) : Z * Z * string :=
  (- popularity c, - match_count c, first_kickoff c).

Definition comp_before (y x : Competition) : bool :=
  match cmp_prio (comp_key y) (comp_key x) with Lt => true | _ => false end.

(** [datetime.MINYEAR <= year <= datetime.MAXYEAR] for the date of the
    wall-clock seconds [w] *)
Definition year_ok (w : Z) : bool :=
  let y := year (civil_from_days (w / 86400)) in (1 <=? y) && (y <=? 9999).

Section Pipeline.

(** The host's local time zone, read by [astimezone] on a naive datetime
    through [localtime]: UTC seconds to local wall-clock seconds. *)
Variable local : Z -> Z.

(** [local] of [_datetimemodule.c]: [utc_to_seconds] of the [localtime]
    fields raises [ValueError] for a year out of [1..9999] *)
Definition local_chk (u : Z) : option Z :=
  if year_ok (local u) then Some (local u) else None.

(** [local_to_seconds] of [_datetimemodule.c] with [fold = 0]: the UTC
    seconds [u] with [local u = t], probing one day earlier for a second
    solution and taking the later candidate in a gap *)
Definition local_to_seconds (t : Z) : option Z :=
  match local_chk t with
  | None => None
  | Some lt =>
      let a := lt - t in
      let u1 := t - a in
      match local_chk u1 with
      | None => None
      | Some t1 =>
          let step :=
            if t1 =? t then
              match local_chk (u1 - 86400) with
              | Some lt2 => let b := lt2 - (u1 - 86400) in
                            if a =? b then Some (inl u1) else Some (inr b)
              | None => None
              end
            else Some (inr (t1 - u1)) in
          match step with
          | None => None
          | Some (inl u) => Some u
          | Some (inr b) =>
              let u2 := t - b in
              match local_chk u2 with
              | None => None
              | Some t2 =>
                  if t2 =? t then Some u2
                  else if t1 =? t then Some u1
                  else Some (Z.max u1 u2)
              end
          end
      end
  end.

(** [utils.iso_z] on a naive datetime: [astimezone(timezone.utc)] takes
    the offset [local u - u] of the local zone at the instant [u] found by
    [local_to_seconds] and subtracts it ([OverflowError] out of years
    [1..9999]); [None] is the exception. *)
Definition iso_z (dt : DateTime) : option string :=
  let t := wall_seconds dt in
  match local_to_seconds t with
  | Some u =>
      let r := t - (local u - u) in
      if year_ok r then Some (format_utc r) else None
  | None => None
  end.

(** [competitions_from_fixtures] *)
Definition competitions_from_fixtures (fixtures : list Fixture) : option (list Competition) :=
  let comps := group_by String.eqb (map (fun f => (competition f, f)) fixtures) in
  match map_opt (fun kg =>
          let nm := fst kg in
          let items := snd kg in
          match sort_chrono items with
          | [] => None
          | first :: _ =>
              match fromisoformat (date first ++ "T" ++ time first ++ ":00") with
              | Some dt =>
                  match iso_z dt with
                  | Some fk =>
                      Some (mkCompetition nm (slugify nm) (popularity_score nm)
                              (Z.of_nat (List.length items)) fk)
                  | None => None
                  end
              | None => None
              end
          end) comps with
  | Some out => Some (sort_by comp_before out)
  | None => None
  end.

Variable IRISH_TO_ENGLISH : list (string * string).

(** [build_search_index], as a map producing new records *)
Definition build_search_index (f : Fixture) : Fixture :=
  let orig := join " " [home f; away f; competition f;
                        match venue f with Some v => v | None => EmptyString end] in
  let mapped := map_irish_tokens IRISH_TO_ENGLISH orig in
  {| id := id f; date := date f; time := time f; competition := competition f;
     home := home f; away := away f; venue := venue f; status := status f;
     score := score f; source := source f; updated_at := updated_at f;
     search_index := Some (norm_text (orig ++ " " ++ mapped)) |}.

(** [build_cmd] from the combined fixtures to the three published lists *)
Definition build (cfg : Config) (today : Date) (fixtures : list Fixture)
  : option (list Fixture * list Fixture * list Competition) :=
  let fixtures := map build_search_index fixtures in
  match dedupe IRISH_TO_ENGLISH fixtures with
  | None => None
  | Some merged =>
      let merged := filter (fun f => negb (is_placeholder_team (home f)
                                           || is_placeholder_team (away f))) merged in
      let merged := collapse_future_duplicates IRISH_TO_ENGLISH merged in
      match select_windows cfg today merged with
      | None => None
      | Some (upcoming, recent) =>
          match competitions_from_fixtures upcoming with
          | Some competitions => Some (upcoming, recent, competitions)
          | None => None
          end
      end
  end.

End Pipeline.

(** Spec side: Europe/London civil time (GMT, and BST from
    01:00 UTC on the last Sunday of March to 01:00 UTC on the last Sunday
    of October), read as [zoneinfo] does with [fold=0]: wall-clock seconds
    to UTC seconds. *)
Definition weekday (z : Z) : Z := (z + 3) mod 7.

Definition last_sunday (y m : Z) : Z :=
  let z := days_from_civil (mkDate y m (days_in_month y m)) in
  z - (weekday z + 1) mod 7.

Definition london_to_utc (w : Z) : Z :=
  let y := year (civil_from_days (w / 86400)) in
  let bst_start := last_sunday y 3 * 86400 + 7200 in
  let bst_end := last_sunday y 10 * 86400 + 7200 in
  if (bst_start <=? w) && (w <? bst_end) then w - 3600 else w.

(** The spec's keyword table (section 4.5), with the abbreviations of
    "national league" the code uses ([nfl], [nhl]). *)
Definition popularity_rules : list (list string * Z) :=
  [(["all-ireland"], 100);
   (["ulster"; "munster"; "leinster"; "connacht"; "provincial"], 80);
   (["national league"; "nfl"; "nhl"], 70);
   (["senior championship"], 60);
   (["intermediate"], 50);
   (["junior"], 40);
   (["division"; "league"], 30);
   (["friendly"], 10)].

Definition rules_score (t : string) : Z :=
  fold_right (fun r acc => (if contains_any (fst r) t then snd r else 0) + acc) 0 popularity_rules.

(* ------------------------------------------------------------------ *)
(** ** Concrete inputs *)

Definition mkfx (i d t comp h a : string) (st : Status) (src : string) : Fixture :=
  mkFixture i d t comp h a None st None src "2025-10-30T12:00:00Z" None.

(** Two ICS events at the same instant get the same id
    ([f"ics-{when.isoformat()}"] in [adapters/ics_ecal.py]). *)
Definition ics_a : Fixture :=
  mkfx "ics-2025-11-01T14:00:00+00:00" "2025-11-01" "14:00" "Ulster SFC" "Dublin" "Kerry" Scheduled "ics".
Definition ics_b : Fixture :=
  mkfx "ics-2025-11-08T14:00:00+00:00" "2025-11-08" "14:00" "Ulster SFC" "Dublin" "Kerry" Scheduled "ics".
Definition ics_c : Fixture :=
  mkfx "ics-2025-11-08T14:00:00+00:00" "2025-11-08" "14:00" "Ulster SFC" "Cork" "Mayo" Scheduled "ics".

(** The spec's "priority wins" pair: a later, more complete scraper
    fixture and a registry fixture of the same match. *)
Definition prio_a : Fixture :=
  mkFixture "scr-1" "2025-11-08" "19:32" "Ulster SFC" "Dublin" "Kerry" (Some "Croke Park")
    Scheduled None "scraper" "2025-11-02T10:00:00Z" None.
Definition prio_b : Fixture :=
  mkFixture "gms-7" "2025-11-08" "19:30" "Ulster SFC" "Dublin" "Kerry" None
    Scheduled None "gaa_gms" "2025-11-01T10:00:00Z" None.

Definition aisfc_fx : Fixture :=
  mkfx "gms-2" "2025-07-20" "15:30" "All-Ireland Senior Football Championship" "Kerry" "Donegal" Scheduled "gaa_gms".
Definition div2_fx : Fixture :=
  mkfx "gms-3" "2025-03-02" "14:00" "Division 2 League" "Cork" "Meath" Scheduled "gaa_gms".

Definition win_cfg : Config := mkConfig 14 7 21 30.
Definition nov15_fx : Fixture :=
  mkfx "gms-4" "2025-11-15" "13:00" "Ulster SFC" "Derry" "Down" Scheduled "gaa_gms".
Definition nov16_fx : Fixture :=
  mkfx "scr-5" "2025-11-16" "13:00" "Ulster SFC" "Cavan" "Tyrone" Scheduled "scraper".
Definition ft_fx : Fixture :=
  mkFixture "gms-6" "2025-10-10" "19:30" "Ulster SFC" "Monaghan" "Fermanagh" None
    FT (Some "1-10 0-12") "gaa_gms" "2025-10-11T09:00:00Z" None.
Definition blank_fx : Fixture :=
  mkfx "scr-8" "2025-11-09" "12:00" "Ulster SFC" "" "Antrim" Scheduled "scraper".

Definition prio_key0 : Key := ("2025-11-08", 1170, "dublin", "kerry", "ulster-sfc").

Definition aisfc_comp : Competition :=
  mkCompetition "All-Ireland Senior Football Championship"
    "all-ireland-senior-football-championship" 100 1 "2025-07-20T15:30:00Z".
Definition div2_comp : Competition :=
  mkCompetition "Division 2 League" "division-2-league" 30 1 "2025-03-02T14:00:00Z".

Definition summer_fx : Fixture :=
  mkfx "gms-1" "2025-07-05" "15:00" "Ulster SFC" "Armagh" "Tyrone" Scheduled "gaa_gms".

(* ------------------------------------------------------------------ *)
(** ** Shapes of normalised text *)

(** no two adjacent characters of the class [p] *)
Definition no_double (p : ascii -> bool) (s : string) : Prop :=
  forall l1 l2 a b, list_ascii_of_string s = (l1 ++ a :: b :: l2)%list -> p a = false \/ p b = false.

(** neither the first nor the last character is of the class [p] *)
Definition no_edge (p : ascii -> bool) (s : string) : Prop :=
  forall c l, list_ascii_of_string s = c :: l \/ list_ascii_of_string s = (l ++ [c])%list ->
  p c = false.

(** [[a-z0-9 -]] and [[a-z0-9-]] *)
Definition text_char (c : ascii) : bool :=
  is_lower c || is_digit c || is_dash c || Ascii.eqb c " "%char.
Definition slug_char (c : ascii) : bool := is_lower c || is_digit c || is_dash c.

(* ------------------------------------------------------------------ *)
(** ** [adapters/scraper_web.py]: [_norm_time_str] *)

(** the class [[:\.]] *)
Definition is_time_sep (c : ascii) : bool := (code c =? 58) || (code c =? 46).

(** [(\d{1,2})[:\.](\d{2})] anchored at the start of [l], with [\d{1,2}]
    taking two digits ... *)
Definition time_match2 (l : list ascii) : option (string * string) :=
  match l with
  | a :: b :: c :: d :: e :: _ =>
      if is_digit a && is_digit b && is_time_sep c && is_digit d && is_digit e
      then Some (String a (String b EmptyString), String d (String e EmptyString)) else None
  | _ => None
  end.

(** ... or, when that fails, one digit *)
Definition time_match1 (l : list ascii) : option (string * string) :=
  match l with
  | a :: c :: d :: e :: _ =>
      if is_digit a && is_time_sep c && is_digit d && is_digit e
      then Some (String a EmptyString, String d (String e EmptyString)) else None
  | _ => None
  end.

Definition time_match_at (l : list ascii) : option (string * string) :=
  match time_match2 l with Some g => Some g | None => time_match1 l end.

(** [re.search]: the groups of the match at the first position where the
    pattern matches *)
Fixpoint time_search (l : list ascii) : option (string * string) :=
  match l with
  | [] => None
  | _ :: l' => match time_match_at l with Some g => Some g | None => time_search l' end
  end.

(** [_norm_time_str] on a [str] ([s or ''] is [s]); [None] would be a
    [ValueError] of [int]. *)
Definition norm_time_str (s : string) : option string :=
  let s := strip s in
  match time_search (list_ascii_of_string s) with
  | Some (g1, g2) =>
      match py_int g1, py_int g2 with
      | Some h, Some mnt =>
          if (h <? 24) && (mnt <? 60) then Some (pad 2 h ++ ":" ++ pad 2 mnt)
          else Some "00:00"
      | _, _ => None
      end
  | None => Some "00:00"
  end.

(** [0, 1, ..., n - 1] *)
Definition zrange (n : nat) : list Z := map Z.of_nat (seq 0 n).

(** for a minute count [m] of the day, [round(m / 5)] on the float
    quotient gives the exact [round_div m 5] *)
Definition bucket_cell (m : Z) : bool :=
  match py_true_div m 5 with
  | Some x => py_round_float x =? round_div m 5
  | None => false
  end.

(** every ["HH:MM"] with [HH < 24] and [MM < 60]: [_minutes] reads it back
    and [_norm_time_str] leaves it as it is *)
Definition hhmm_table_ok : bool :=
  forallb (fun h => forallb (fun m =>
      let t := pad 2 h ++ ":" ++ pad 2 m in
      match minutes t, norm_time_str t with
      | Some v, Some t' => Z.eqb v (h * 60 + m) && String.eqb t' t
      | _, _ => false
      end) (zrange 60)) (zrange 24).

(* ------------------------------------------------------------------ *)
(** ** [utils.london_weekend_for] and [merge.weekend_top_competitions] *)

(** [date.weekday()], Monday = 0; day 0 (1970-01-01) was a Thursday *)
Definition date_weekday (d : Date) : Z := (days_from_civil d + 3) mod 7.

(** [london_weekend_for]; [None] is the [OverflowError] of the date
    arithmetic past 9999-12-31 *)
Definition london_weekend_for (dt : Date) : option (Date * Date) :=
  let dow := date_weekday dt in
  let delta_to_sat := (5 - dow) mod 7 in
  match add_days dt delta_to_sat with
  | Some sat =>
      match add_days sat 1 with
      | Some sun => Some (sat, sun)
      | None => None
      end
  | None => None
  end.

(** [weekend_top_competitions]; [today] is [today.date()], and
    [local] is the host zone read by [iso_z] *)
Definition weekend_top_competitions (local : Z -> Z) (fixtures : list Fixture)
  (today : Date) : option (list Competition) :=
  match london_weekend_for today with
  | Some (sat, sun) =>
      let weekend := filter (fun f => str_le (iso_date sat) (date f)
                                      && str_le (date f) (iso_date sun)) fixtures in
      match competitions_from_fixtures local weekend with
      | Some comps => Some (firstn 3 comps)
      | None => None
      end
  | None => None
  end.

(** ** Calendar arithmetic of [civil_from_days], by day of the era *)
(** The inverse part of [civil_from_days], from the day of the era. *)
Definition civil_parts (doe : Z) : Z * Z * Z :=
  let yoe := (doe - doe / 1460 + doe / 36524 - doe / 146096) / 365 in
  let doy := doe - (365 * yoe + yoe / 4 - yoe / 100) in
  let mp := (5 * doy + 2) / 153 in
  (yoe, mp, doy - (153 * mp + 2) / 5 + 1).

Definition doe_of (yoe mp dd : Z) : Z :=
  yoe * 365 + yoe / 4 - yoe / 100 + ((153 * mp + 2) / 5 + dd - 1).

(** One cell of the finite check behind [civil_from_days_of_civil]: a
    valid (year of era, shifted month, day) is recovered from its day of
    the era. *)
Definition civil_cell (yoe mp dd : Z) : bool :=
  implb (dd <=? days_in_month (if mp <? 10 then yoe else yoe + 1) (if mp <? 10 then mp + 3 else mp - 9))
    ((0 <=? doe_of yoe mp dd) && (doe_of yoe mp dd <? 146097) &&
     match civil_parts (doe_of yoe mp dd) with
     | (a, b, c) => (a =? yoe) && (b =? mp) && (c =? dd)
     end).

(* ================================================================== *)
(** * Generic facts: comparisons, the stable sort, grouping *)

Section CmpFacts.
Context {T : Type} (cmp : T -> T -> comparison).

Definition cmp_ok : Prop :=
  (forall a b, cmp a b = CompOpp (cmp b a)) /\
  (forall a b, cmp a b = Eq -> a = b) /\
  (forall a b c, cmp a b = Lt -> cmp b c = Lt -> cmp a c = Lt).

Hypothesis Hok : cmp_ok.

Lemma cmp_refl a : cmp a a = Eq.
Proof.
  destruct Hok as [Ha _]. specialize (Ha a a).
  destruct (cmp a a); simpl in Ha; congruence.
Qed.

Lemma cmp_le_trans a b c : cmp a b <> Gt -> cmp b c <> Gt -> cmp a c <> Gt.
Proof.
  destruct Hok as (Ha & He & Ht). intros H1 H2.
  destruct (cmp a b) eqn:E1; [| |congruence].
  - apply He in E1; subst; exact H2.
  - destruct (cmp b c) eqn:E2; [| |congruence].
    + apply He in E2; subst; rewrite E1; discriminate.
    + rewrite (Ht _ _ _ E1 E2); discriminate.
Qed.

End CmpFacts.

Lemma Z_compare_ok : cmp_ok Z.compare.
Proof.
  split; [|split].
  - intros; apply Z.compare_antisym.
  - intros a b H; apply Z.compare_eq_iff; exact H.
  - intros a b c H1 H2; rewrite Z.compare_lt_iff in *; lia.
Qed.

Lemma N_of_ascii_inj a b : N_of_ascii a = N_of_ascii b -> a = b.
Proof. intros H. rewrite <- (ascii_N_embedding a), <- (ascii_N_embedding b), H. reflexivity. Qed.

Lemma string_compare_ok : cmp_ok String.compare.
Proof.
  split; [|split].
  - apply String.compare_antisym.
  - apply String.compare_eq_iff.
  - induction a as [|x a IH]; intros [|y b] [|z c]; simpl; try congruence.
    unfold Ascii.compare.
    destruct (N.compare (N_of_ascii x) (N_of_ascii y)) eqn:E1; try congruence;
    destruct (N.compare (N_of_ascii y) (N_of_ascii z)) eqn:E2; try congruence;
    rewrite ?N.compare_eq_iff, ?N.compare_lt_iff in *.
    + apply N_of_ascii_inj in E1; apply N_of_ascii_inj in E2; subst.
      rewrite N.compare_refl; apply IH.
    + intros _ _; apply N_of_ascii_inj in E1; subst.
      rewrite (proj2 (N.compare_lt_iff _ _) E2); reflexivity.
    + intros _ _; apply N_of_ascii_inj in E2; subst.
      rewrite (proj2 (N.compare_lt_iff _ _) E1); reflexivity.
    + intros _ _. assert (N.compare (N_of_ascii x) (N_of_ascii z) = Lt)
        by (apply N.compare_lt_iff; lia).
      rewrite H; reflexivity.
Qed.

(** lexicographic comparison of pairs, as Python compares tuples *)
Definition cmp_lex {A B} (ca : A -> A -> comparison) (cb : B -> B -> comparison)
  (x y : A * B) : comparison :=
  match ca (fst x) (fst y) with Eq => cb (snd x) (snd y) | c => c end.

Lemma cmp_lex_ok {A B} (ca : A -> A -> comparison) (cb : B -> B -> comparison) :
  cmp_ok ca -> cmp_ok cb -> cmp_ok (cmp_lex ca cb).
Proof.
  intros (Aa & Ae & At) (Ba & Be & Bt). unfold cmp_lex.
  split; [|split].
  - intros [a1 b1] [a2 b2]; simpl. rewrite (Aa a1 a2), (Ba b1 b2).
    destruct (ca a2 a1); reflexivity.
  - intros [a1 b1] [a2 b2]; simpl.
    destruct (ca a1 a2) eqn:E; try discriminate.
    intros H. apply Ae in E; apply Be in H; subst; reflexivity.
  - intros [a1 b1] [a2 b2] [a3 b3]; simpl.
    destruct (ca a1 a2) eqn:E1; try discriminate;
    destruct (ca a2 a3) eqn:E2; try discriminate.
    + apply Ae in E1; apply Ae in E2; subst. rewrite (cmp_refl ca (conj Aa (conj Ae At))).
      apply Bt.
    + apply Ae in E1; subst. rewrite E2; auto.
    + apply Ae in E2; subst. rewrite E1; auto.
    + rewrite (At _ _ _ E1 E2); auto.
Qed.

Lemma cmp_prio_lex a b :
  cmp_prio a b = cmp_lex (cmp_lex Z.compare Z.compare) String.compare a b.
Proof.
  destruct a as [[p1 c1] u1], b as [[p2 c2] u2]; unfold cmp_lex; simpl.
  destruct (Z.compare p1 p2); reflexivity.
Qed.

Lemma cmp_prio_ok : cmp_ok cmp_prio.
Proof.
  pose proof (cmp_lex_ok _ _ (cmp_lex_ok _ _ Z_compare_ok Z_compare_ok) string_compare_ok)
    as (Ha & He & Ht).
  split; [|split]; intros; rewrite ?cmp_prio_lex in *; eauto.
Qed.

Lemma cmp_str2_ok : cmp_ok cmp_str2.
Proof.
  pose proof (cmp_lex_ok _ _ string_compare_ok string_compare_ok) as H.
  exact H.
Qed.

Section SortFacts.
Context {A : Type} (before : A -> A -> bool).

Lemma insert_by_perm x l : Permutation (insert_by before x l) (x :: l).
Proof.
  induction l as [|y l IH]; simpl; [auto|].
  destruct (before y x); [|auto].
  eapply perm_trans; [apply perm_skip, IH|apply perm_swap].
Qed.

Lemma sort_by_perm l : Permutation (sort_by before l) l.
Proof.
  induction l as [|x l IH]; simpl; [auto|].
  eapply perm_trans; [apply insert_by_perm|auto].
Qed.

(** The occurrence of the head of the sorted list that all earlier
    elements of the input must come strictly after. *)
Lemma sort_by_head_first l w r :
  sort_by before l = w :: r ->
  exists pre post, l = (pre ++ w :: post)%list /\ forall y, In y pre -> before w y = true.
Proof.
  revert w r; induction l as [|x l IH]; intros w r H; simpl in H; [discriminate|].
  destruct (sort_by before l) as [|h t] eqn:Hs.
  - simpl in H; inversion H; subst. exists [], l; split; [reflexivity|intros y []].
  - simpl in H. destruct (before h x) eqn:Hb; inversion H; subst.
    + destruct (IH w t eq_refl) as (pre & post & -> & Hpre).
      exists (x :: pre), post; split; [reflexivity|].
      intros y [<-|Hy]; auto.
    + exists [], l; split; [reflexivity|intros y []].
Qed.

Definition not_after (a b : A) : Prop := before b a = false.

Hypothesis before_asym : forall a b, before a b = true -> before b a = false.

Lemma insert_by_sorted x l :
  LocallySorted not_after l -> LocallySorted not_after (insert_by before x l).
Proof.
  induction 1 as [|y|y z l Hs IH Hyz]; simpl.
  - constructor.
  - destruct (before y x) eqn:E; apply LSorted_consn; try constructor.
    + apply before_asym; exact E.
    + exact E.
  - destruct (before y x) eqn:E.
    + simpl in IH |- *. destruct (before z x) eqn:E2.
      * apply LSorted_consn; assumption.
      * apply LSorted_consn; [exact IH|apply before_asym; exact E].
    + apply LSorted_consn; [apply LSorted_consn; assumption|exact E].
Qed.

Lemma sort_by_sorted l : LocallySorted not_after (sort_by before l).
Proof.
  induction l as [|x l IH]; simpl; [constructor|]. apply insert_by_sorted, IH.
Qed.

Lemma sort_by_id l : LocallySorted not_after l -> sort_by before l = l.
Proof.
  induction 1 as [|y|y z l Hs IH Hyz]; [reflexivity|reflexivity|].
  change (insert_by before y (sort_by before (z :: l)) = y :: z :: l).
  rewrite IH; simpl. unfold not_after in Hyz. rewrite Hyz. reflexivity.
Qed.

Hypothesis not_after_trans : forall a b c, not_after a b -> not_after b c -> not_after a c.

Lemma before_irrefl a : before a a = false.
Proof. destruct (before a a) eqn:E; [|reflexivity]. pose proof (before_asym _ _ E); congruence. Qed.

Lemma sort_by_head_max l w r :
  sort_by before l = w :: r -> forall y, In y l -> before y w = false.
Proof.
  intros H y Hy.
  pose proof (sort_by_sorted l) as Hs. rewrite H in Hs.
  apply Sorted_LocallySorted_iff, Sorted_StronglySorted in Hs;
    [|intros a b c; apply not_after_trans].
  apply (Permutation_in _ (Permutation_sym (sort_by_perm l))) in Hy.
  rewrite H in Hy. destruct Hy as [<-|Hy]; [apply before_irrefl|].
  inversion Hs as [|? ? _ HF]; subst. rewrite Forall_forall in HF. exact (HF y Hy).
Qed.

End SortFacts.

Section GroupFacts.
Context {K A : Type} (keqb : K -> K -> bool).
Hypothesis keqb_iff : forall a b, keqb a b = true <-> a = b.

Lemma keqb_refl k : keqb k k = true.
Proof. apply keqb_iff; reflexivity. Qed.

Lemma keqb_false a b : a <> b -> keqb a b = false.
Proof. intros H. destruct (keqb a b) eqn:E; [apply keqb_iff in E; congruence|reflexivity]. Qed.

Fixpoint lookup (k : K) (gs : list (K * list A)) : option (list A) :=
  match gs with
  | [] => None
  | (k', g) :: gs' => if keqb k k' then Some g else lookup k gs'
  end.

(** the members of the group of [k], in input order *)
Definition members (k : K) (kxs : list (K * A)) : list A :=
  map snd (filter (fun ka => keqb (fst ka) k) kxs).

Lemma group_by_app (kxs : list (K * A)) (ka : K * A) :
  group_by keqb (kxs ++ [ka]) = add_to_group keqb (fst ka) (snd ka) (group_by keqb kxs).
Proof. unfold group_by. rewrite fold_left_app. reflexivity. Qed.

Lemma lookup_add k k' (a : A) gs :
  lookup k (add_to_group keqb k' a gs) =
  if keqb k k' then Some match lookup k gs with Some g => (g ++ [a])%list | None => [a] end
  else lookup k gs.
Proof.
  induction gs as [|[k0 g] gs IH]; simpl.
  - destruct (keqb k k'); reflexivity.
  - destruct (keqb k' k0) eqn:E0; simpl.
    + apply keqb_iff in E0; subst.
      destruct (keqb k k0); reflexivity.
    + rewrite IH. destruct (keqb k k0) eqn:E1, (keqb k k') eqn:E2; try reflexivity.
      apply keqb_iff in E1, E2; subst. rewrite keqb_refl in E0; discriminate.
Qed.

Lemma keys_add k (a : A) gs :
  ~ In k (map fst gs) -> map fst (add_to_group keqb k a gs) = (map fst gs ++ [k])%list.
Proof.
  induction gs as [|[k0 g] gs IH]; simpl; intros Hn; [reflexivity|].
  rewrite keqb_false by (intros ->; auto). simpl. rewrite IH by auto. reflexivity.
Qed.

Lemma keys_add_in k (a : A) gs :
  In k (map fst gs) -> map fst (add_to_group keqb k a gs) = map fst gs.
Proof.
  induction gs as [|[k0 g] gs IH]; simpl; intros Hk; [contradiction|].
  destruct (keqb k k0) eqn:E; simpl; [reflexivity|].
  destruct Hk as [->|Hk]; [rewrite keqb_refl in E; discriminate|].
  rewrite IH by exact Hk. reflexivity.
Qed.

Lemma in_keys_dec k (ks : list K) : {In k ks} + {~ In k ks}.
Proof.
  induction ks as [|k0 ks IH]; [right; intros []|].
  destruct (keqb k k0) eqn:E.
  - left; left; symmetry; apply keqb_iff; exact E.
  - destruct IH as [H|H]; [left; right; exact H|right].
    intros [->|H']; [rewrite keqb_refl in E; discriminate|contradiction].
Qed.

Lemma add_nodup k (a : A) gs :
  NoDup (map fst gs) -> NoDup (map fst (add_to_group keqb k a gs)).
Proof.
  intros Hn. destruct (in_keys_dec k (map fst gs)) as [Hi|Hi].
  - rewrite keys_add_in by exact Hi. exact Hn.
  - rewrite keys_add by exact Hi. apply NoDup_app; auto using NoDup_cons, NoDup_nil.
    intros x Hx [<-|[]]; contradiction.
Qed.

Lemma group_by_nodup (kxs : list (K * A)) : NoDup (map fst (group_by keqb kxs)).
Proof.
  induction kxs as [|ka kxs IH] using rev_ind; [constructor|].
  rewrite group_by_app. apply add_nodup, IH.
Qed.

Lemma members_app k (kxs : list (K * A)) k' a :
  members k (kxs ++ [(k', a)]) = (members k kxs ++ if keqb k' k then [a] else [])%list.
Proof.
  unfold members. rewrite filter_app, map_app. simpl.
  destruct (keqb k' k); reflexivity.
Qed.

Lemma lookup_group_by k (kxs : list (K * A)) :
  lookup k (group_by keqb kxs) =
  match members k kxs with [] => None | g => Some g end.
Proof.
  induction kxs as [|[k' a] kxs IH] using rev_ind; [reflexivity|].
  rewrite group_by_app, members_app, lookup_add. simpl.
  destruct (keqb k k') eqn:E.
  - apply keqb_iff in E; subst. rewrite keqb_refl, IH.
    destruct (members k' kxs); reflexivity.
  - assert (keqb k' k = false) as E'
      by (apply keqb_false; intros ->; rewrite keqb_refl in E; discriminate).
    rewrite E', app_nil_r. exact IH.
Qed.

Lemma lookup_in k g (gs : list (K * list A)) :
  NoDup (map fst gs) -> (In (k, g) gs <-> lookup k gs = Some g).
Proof.
  induction gs as [|[k0 g0] gs IH]; simpl; intros Hn; [split; [intros []|discriminate]|].
  inversion Hn as [|? ? Hn0 Hn1]; subst.
  destruct (keqb k k0) eqn:E.
  - apply keqb_iff in E; subst. split.
    + intros [H|H]; [congruence|].
      exfalso; apply Hn0. apply (in_map fst) in H; exact H.
    + intros H; inversion H; subst; left; reflexivity.
  - rewrite <- IH by exact Hn1. split; [|auto].
    intros [H|H]; [inversion H; subst; rewrite keqb_refl in E; discriminate|exact H].
Qed.

(** A group of [group_by] is exactly the non-empty list of the members of
    its key, in input order. *)
Lemma in_group_by k g (kxs : list (K * A)) :
  In (k, g) (group_by keqb kxs) <-> (g = members k kxs /\ g <> []).
Proof.
  rewrite lookup_in by apply group_by_nodup. rewrite lookup_group_by.
  destruct (members k kxs) as [|m ms]; split; intros H.
  - discriminate.
  - destruct H; congruence.
  - inversion H; split; [reflexivity|discriminate].
  - destruct H; subst; reflexivity.
Qed.

Lemma in_members k a (kxs : list (K * A)) : In a (members k kxs) <-> In (k, a) kxs.
Proof.
  unfold members. rewrite in_map_iff. split.
  - intros [[k' a'] [Ha Hf]]. apply filter_In in Hf as [Hin Hk]. simpl in *.
    apply keqb_iff in Hk; subst; exact Hin.
  - intros H. exists (k, a); split; [reflexivity|].
    apply filter_In; split; [exact H|apply keqb_refl].
Qed.

Lemma add_fresh k (a : A) gs :
  ~ In k (map fst gs) -> add_to_group keqb k a gs = (gs ++ [(k, [a])])%list.
Proof.
  induction gs as [|[k0 g] gs IH]; simpl; intros Hn; [reflexivity|].
  rewrite keqb_false by (intros ->; auto). rewrite IH by auto. reflexivity.
Qed.

(** With pairwise distinct keys every group is a singleton. *)
Lemma group_by_distinct (kxs : list (K * A)) :
  NoDup (map fst kxs) -> group_by keqb kxs = map (fun ka => (fst ka, [snd ka])) kxs.
Proof.
  induction kxs as [|ka kxs IH] using rev_ind; intros Hn; [reflexivity|].
  rewrite map_app in Hn. apply NoDup_app_remove_r in Hn as Hn'.
  rewrite group_by_app, IH by exact Hn'. rewrite add_fresh, map_app; [reflexivity|].
  rewrite map_map. simpl. change (fun x : K * A => fst x) with (@fst K A).
  intros Hin. apply (NoDup_remove_2 (map fst kxs) [] (fst ka)) in Hn.
  apply Hn. rewrite app_nil_r. exact Hin.
Qed.

End GroupFacts.

(* ================================================================== *)
(** * [dedupe] *)

Lemma key_eqb_iff a b : key_eqb a b = true <-> a = b.
Proof.
  destruct a as [[[[d1 t1] h1] a1] c1], b as [[[[d2 t2] h2] a2] c2]; simpl.
  rewrite !andb_true_iff, !String.eqb_eq, Z.eqb_eq. split.
  - intros [[[[-> ->] ->] ->] ->]; reflexivity.
  - intros H; inversion H; subst; tauto.
Qed.

Lemma prio_before_asym a b : prio_before a b = true -> prio_before b a = false.
Proof.
  unfold prio_before. destruct cmp_prio_ok as [Ha _].
  rewrite (Ha (prio_key b)). destruct (cmp_prio (prio_key a) (prio_key b)); simpl; congruence.
Qed.

Lemma prio_not_after_trans a b c :
  not_after prio_before a b -> not_after prio_before b c -> not_after prio_before a c.
Proof.
  unfold not_after, prio_before. intros H1 H2.
  destruct (cmp_prio (prio_key c) (prio_key a)) eqn:E; auto.
  exfalso. apply (cmp_le_trans cmp_prio cmp_prio_ok (prio_key c) (prio_key b) (prio_key a));
    [destruct (cmp_prio (prio_key c) (prio_key b)); congruence
    |destruct (cmp_prio (prio_key b) (prio_key a)); congruence|exact E].
Qed.

Lemma chrono_before_asym a b : chrono_before a b = true -> chrono_before b a = false.
Proof.
  unfold chrono_before. destruct cmp_str2_ok as [Ha _].
  rewrite (Ha (date b, time b)). destruct (cmp_str2 (date a, time a) (date b, time b)); simpl; congruence.
Qed.

Lemma source_priority_le s : source_priority s <= 3.
Proof.
  unfold source_priority.
  destruct (String.eqb s "gaa_gms"), (String.eqb s "clubzap"), (String.eqb s "ics"),
    (String.eqb s "scraper"); lia.
Qed.

Lemma source_priority_top s : source_priority s = 3 -> s = "gaa_gms".
Proof.
  unfold source_priority. destruct (String.eqb s "gaa_gms") eqn:E; [intros _; apply String.eqb_eq; exact E|].
  destruct (String.eqb s "clubzap"), (String.eqb s "ics"), (String.eqb s "scraper"); lia.
Qed.

Lemma map_opt_in {A B} (f : A -> option B) l l' :
  map_opt f l = Some l' -> forall b, In b l' -> exists a, In a l /\ f a = Some b.
Proof.
  revert l'; induction l as [|x l IH]; simpl; intros l' H b Hb.
  - inversion H; subst; contradiction.
  - destruct (f x) eqn:Ex, (map_opt f l) eqn:El; try discriminate.
    inversion H; subst. destruct Hb as [<-|Hb]; [exists x; auto|].
    destruct (IH _ eq_refl b Hb) as (a & Ha & Hfa). exists a; auto.
Qed.

Lemma map_opt_some {A B} (f : A -> option B) l :
  (forall a, In a l -> f a <> None) -> exists l', map_opt f l = Some l'.
Proof.
  induction l as [|x l IH]; simpl; intros H; [eauto|].
  destruct (f x) eqn:Ex; [|exfalso; apply (H x); auto].
  destruct IH as [l' ->]; [intros a Ha; apply H; auto|]. eauto.
Qed.

Section DedupeFacts.
Variable tbl : list (string * string).

Lemma keyed_spec xs kxs :
  keyed tbl xs = Some kxs ->
  map snd kxs = xs /\ forall ka, In ka kxs -> fixture_key tbl (snd ka) = Some (fst ka).
Proof.
  unfold keyed. revert kxs; induction xs as [|x xs IH]; simpl; intros kxs H.
  - inversion H; subst; split; [reflexivity|intros _ []].
  - destruct (fixture_key tbl x) eqn:Ek; simpl in H; [|discriminate].
    destruct (map_opt _ xs) as [kxs'|] eqn:E; [|discriminate].
    inversion H; subst. destruct (IH _ eq_refl) as [H1 H2]. simpl. rewrite H1.
    split; [reflexivity|]. intros ka [<-|Hka]; [exact Ek|apply H2, Hka].
Qed.

Definition same_key (k : Key) (f : Fixture) : bool :=
  match fixture_key tbl f with Some k' => key_eqb k' k | None => false end.

(** the input fixtures whose grouping key is [k], in input order *)
Definition group_of (k : Key) (xs : list Fixture) : list Fixture := filter (same_key k) xs.

Lemma members_group_of xs kxs k :
  keyed tbl xs = Some kxs -> members key_eqb k kxs = group_of k xs.
Proof.
  intros H. apply keyed_spec in H as [<- Hk]. unfold group_of, members.
  induction kxs as [|[k' f] kxs IH]; simpl; [reflexivity|].
  pose proof (Hk (k', f) (or_introl eq_refl)) as Ef; simpl in Ef.
  unfold same_key at 1. rewrite Ef. simpl.
  rewrite <- IH by (intros ka Hka; apply Hk; right; exact Hka).
  destruct (key_eqb k' k); reflexivity.
Qed.

Lemma choose_cases g : choose g = [] \/ exists w r, sort_by prio_before g = w :: r /\ choose g = [w].
Proof.
  unfold choose. destruct (sort_by prio_before g) as [|w r]; [left; reflexivity|right; eauto].
Qed.

Lemma in_picks y (gs : list (Key * list Fixture)) :
  In y (flat_map (fun kg => choose (snd kg)) gs) <-> exists kg, In kg gs /\ choose (snd kg) = [y].
Proof.
  rewrite in_flat_map. split.
  - intros [kg [Hkg Hy]]. exists kg; split; [exact Hkg|].
    destruct (choose_cases (snd kg)) as [E|(w & r & _ & E)]; rewrite E in *; [contradiction|].
    destruct Hy as [<-|[]]; reflexivity.
  - intros [kg [Hkg E]]. exists kg; split; [exact Hkg|]. rewrite E; left; reflexivity.
Qed.

Lemma choose_in g y : choose g = [y] -> In y g.
Proof.
  unfold choose. destruct (sort_by prio_before g) as [|w r] eqn:E; [discriminate|].
  intros H; inversion H; subst.
  apply (Permutation_in _ (sort_by_perm prio_before g)). rewrite E; left; reflexivity.
Qed.

Lemma dedupe_unfold xs ys :
  dedupe tbl xs = Some ys ->
  exists kxs, keyed tbl xs = Some kxs /\
    ys = sort_chrono (flat_map (fun kg => choose (snd kg)) (group_by key_eqb kxs)).
Proof.
  unfold dedupe. destruct (keyed tbl xs) as [kxs|]; [|discriminate].
  intros H; inversion H; subst; eauto.
Qed.

Lemma in_dedupe_out xs kxs ys y :
  keyed tbl xs = Some kxs ->
  ys = sort_chrono (flat_map (fun kg => choose (snd kg)) (group_by key_eqb kxs)) ->
  In y ys <-> exists k g, In (k, g) (group_by key_eqb kxs) /\ choose g = [y].
Proof.
  intros _ ->. unfold sort_chrono. split.
  - intros Hy. apply (Permutation_in _ (sort_by_perm _ _)) in Hy.
    apply in_picks in Hy as [[k g] [H1 H2]]. eauto.
  - intros (k & g & H1 & H2). apply (Permutation_in _ (Permutation_sym (sort_by_perm _ _))).
    apply in_picks. exists (k, g); auto.
Qed.

End DedupeFacts.

(** C1: in every group of input fixtures sharing a grouping key, [dedupe]
    keeps exactly one fixture [w]: it is maximal for the descending
    lexicographic order on [(source priority, completeness, updated_at)],
    every fixture of the group before (the first occurrence of) [w] is
    strictly smaller, so ties go to the first candidate in input order, and
    a group with a registry ([gaa_gms]) fixture keeps a registry fixture. *)
Theorem dedupe_keeps_first_maximal tbl xs ys f0 k :
  dedupe tbl xs = Some ys -> In f0 xs -> fixture_key tbl f0 = Some k ->
  exists w,
    In w (group_of tbl k xs) /\ In w ys /\
    (forall y, In y (group_of tbl k xs) -> In y ys -> y = w) /\
    (forall y, In y (group_of tbl k xs) -> cmp_prio (prio_key y) (prio_key w) <> Gt) /\
    (exists pre post, group_of tbl k xs = (pre ++ w :: post)%list /\
       forall y, In y pre -> cmp_prio (prio_key y) (prio_key w) = Lt) /\
    ((exists b, In b (group_of tbl k xs) /\ source b = "gaa_gms") -> source w = "gaa_gms").
Proof.
  intros Hd Hf0 Hk0.
  destruct (dedupe_unfold tbl xs ys Hd) as (kxs & Hkx & Hys).
  pose proof (members_group_of tbl xs kxs k Hkx) as Hmem.
  set (g := group_of tbl k xs) in *.
  assert (Hg0 : In f0 g).
  { unfold g, group_of. apply filter_In; split; [exact Hf0|].
    unfold same_key. rewrite Hk0. apply key_eqb_iff; reflexivity. }
  assert (Hgrp : In (k, g) (group_by key_eqb kxs)).
  { apply (in_group_by key_eqb key_eqb_iff). split; [symmetry; exact Hmem|].
    intros E; rewrite E in Hg0; contradiction. }
  destruct (sort_by prio_before g) as [|w r] eqn:Hsort.
  { exfalso. apply (Permutation_in _ (Permutation_sym (sort_by_perm prio_before g))) in Hg0.
    rewrite Hsort in Hg0; contradiction. }
  assert (Hch : choose g = [w]) by (unfold choose; rewrite Hsort; reflexivity).
  destruct cmp_prio_ok as [Hanti _].
  assert (Hmax : forall y, In y g -> cmp_prio (prio_key y) (prio_key w) <> Gt).
  { intros y Hy. pose proof (sort_by_head_max prio_before prio_before_asym
      prio_not_after_trans g w r Hsort y Hy) as H.
    unfold prio_before in H. destruct (cmp_prio (prio_key y) (prio_key w)); congruence. }
  exists w. split; [|split; [|split; [|split; [exact Hmax|split]]]].
  - apply choose_in; exact Hch.
  - apply (in_dedupe_out tbl xs kxs ys w Hkx Hys). eauto.
  - intros y Hy Hyys.
    apply (in_dedupe_out tbl xs kxs ys y Hkx Hys) in Hyys as (k' & g' & Hg' & Hcy).
    apply (in_group_by key_eqb key_eqb_iff) in Hg' as [Hg'm _].
    assert (Hk' : fixture_key tbl y = Some k').
    { apply choose_in in Hcy. rewrite Hg'm in Hcy.
      apply (in_members key_eqb key_eqb_iff) in Hcy.
      apply keyed_spec in Hkx as [_ Hks]. exact (Hks _ Hcy). }
    assert (Hky : fixture_key tbl y = Some k).
    { unfold g, group_of in Hy. apply filter_In in Hy as [_ Hy].
      unfold same_key in Hy. destruct (fixture_key tbl y); [|discriminate].
      apply key_eqb_iff in Hy; subst; reflexivity. }
    rewrite Hk' in Hky. inversion Hky; subst.
    rewrite Hmem in Hcy. fold g in Hcy. rewrite Hch in Hcy. inversion Hcy; reflexivity.
  - destruct (sort_by_head_first prio_before g w r Hsort) as (pre & post & Hdec & Hpre).
    exists pre, post; split; [exact Hdec|].
    intros y Hy. specialize (Hpre y Hy). unfold prio_before in Hpre.
    rewrite Hanti. destruct (cmp_prio (prio_key w) (prio_key y)); simpl; congruence.
  - intros (b & Hb & Hsrc). specialize (Hmax b Hb).
    apply source_priority_top.
    pose proof (source_priority_le (source w)).
    assert (Hb3 : source_priority (source b) = 3) by (rewrite Hsrc; reflexivity).
    unfold cmp_prio, prio_key in Hmax.
    destruct (Z.compare_spec (source_priority (source b)) (source_priority (source w)));
      [lia|lia|congruence].
Qed.

Lemma keyed_in tbl xs kxs f :
  keyed tbl xs = Some kxs -> In f xs -> exists k, fixture_key tbl f = Some k /\ In (k, f) kxs.
Proof.
  intros H Hf. apply keyed_spec in H as [Hs Hk]. subst xs.
  apply in_map_iff in Hf as [[k f'] [Hf' Hin]]. simpl in Hf'; subst f'.
  exists k; split; [exact (Hk _ Hin)|exact Hin].
Qed.

Lemma in_group_key tbl xs kxs k g y :
  keyed tbl xs = Some kxs -> In (k, g) (group_by key_eqb kxs) -> In y g ->
  fixture_key tbl y = Some k.
Proof.
  intros Hkx Hg Hy. apply (in_group_by key_eqb key_eqb_iff) in Hg as [-> _].
  apply (in_members key_eqb key_eqb_iff) in Hy.
  apply keyed_spec in Hkx as [_ Hks]. exact (Hks _ Hy).
Qed.

Lemma in_zrange n k : 0 <= k < Z.of_nat n -> In k (zrange n).
Proof.
  intros H. unfold zrange. apply in_map_iff. exists (Z.to_nat k). split; [lia|].
  apply in_seq. lia.
Qed.

Lemma bucket_table : forallb bucket_cell (zrange 1440) = true.
Proof. vm_compute. reflexivity. Qed.

(** on a minute count of the day the float arithmetic is exact *)
Lemma best_time_bucket_day t m :
  minutes t = Some m -> 0 <= m < 1440 -> best_time_bucket t = Some (round_div m 5 * 5).
Proof.
  intros Hm Hr. pose proof bucket_table as T. rewrite forallb_forall in T.
  specialize (T m (in_zrange 1440 m ltac:(lia))). unfold bucket_cell in T.
  unfold best_time_bucket. rewrite Hm.
  destruct (py_true_div m 5) as [x|]; [|discriminate].
  apply Z.eqb_eq in T. rewrite T. reflexivity.
Qed.

Lemma round_div_5 m :
  let b := round_div m 5 * 5 in b mod 5 = 0 /\ Z.abs (b - m) <= 2.
Proof.
  unfold round_div. pose proof (Z.div_mod m 5 ltac:(lia)) as Hm.
  pose proof (Z.mod_pos_bound m 5 ltac:(lia)) as Hb.
  set (q := m / 5) in *. set (r := m mod 5) in *.
  destruct (2 * r <? 5) eqn:E1; [|destruct (5 <? 2 * r) eqn:E2; [|destruct (Z.even q)]];
    rewrite ?Z.ltb_lt, ?Z.ltb_ge in *; rewrite Z_mod_mult; split; try reflexivity; lia.
Qed.

Example best_time_bucket_1932 : best_time_bucket "19:32" = Some (19 * 60 + 30).
Proof. reflexivity. Qed.

Example best_time_bucket_1930 : best_time_bucket "19:30" = Some (19 * 60 + 30).
Proof. reflexivity. Qed.

(** C2: [dedupe] puts two input fixtures in the same group exactly when
    their grouping keys [(date, timeBucket(time), normalized home,
    normalized away, competition slug)] agree; the time bucket is the
    minute count since midnight ([0 <= m < 1440]) rounded to a nearest
    multiple of 5, and times 19:32 and 19:30 with equal other components
    share a group. *)
Theorem dedupe_same_group_iff_key tbl xs kxs f1 f2 :
  keyed tbl xs = Some kxs -> In f1 xs -> In f2 xs ->
  ((exists k g, In (k, g) (group_by key_eqb kxs) /\ In f1 g /\ In f2 g) <->
   (date f1 = date f2 /\ best_time_bucket (time f1) = best_time_bucket (time f2) /\
    norm_team tbl (home f1) = norm_team tbl (home f2) /\
    norm_team tbl (away f1) = norm_team tbl (away f2) /\
    slugify (competition f1) = slugify (competition f2))) /\
  (forall t m, minutes t = Some m -> 0 <= m < 1440 ->
     exists b, best_time_bucket t = Some b /\ b mod 5 = 0 /\ Z.abs (b - m) <= 2) /\
  (date f1 = date f2 -> norm_team tbl (home f1) = norm_team tbl (home f2) ->
   norm_team tbl (away f1) = norm_team tbl (away f2) ->
   slugify (competition f1) = slugify (competition f2) ->
   time f1 = "19:32" -> time f2 = "19:30" ->
   exists k g, In (k, g) (group_by key_eqb kxs) /\ In f1 g /\ In f2 g).
Proof.
  intros Hkx H1 H2.
  destruct (keyed_in tbl xs kxs f1 Hkx H1) as (k1 & Hk1 & Hin1).
  destruct (keyed_in tbl xs kxs f2 Hkx H2) as (k2 & Hk2 & Hin2).
  assert (Hsame : (exists k g, In (k, g) (group_by key_eqb kxs) /\ In f1 g /\ In f2 g) <->
                  fixture_key tbl f1 = fixture_key tbl f2).
  { split.
    - intros (k & g & Hg & Hf1 & Hf2).
      rewrite (in_group_key tbl xs kxs k g f1 Hkx Hg Hf1),
              (in_group_key tbl xs kxs k g f2 Hkx Hg Hf2). reflexivity.
    - intros E. rewrite Hk1, Hk2 in E. inversion E; subst k2.
      exists k1, (members key_eqb k1 kxs). split; [|split].
      + apply (in_group_by key_eqb key_eqb_iff). split; [reflexivity|].
        intros En. assert (Hm : In f1 (members key_eqb k1 kxs))
          by (apply (in_members key_eqb key_eqb_iff); exact Hin1).
        rewrite En in Hm; contradiction.
      + apply (in_members key_eqb key_eqb_iff); exact Hin1.
      + apply (in_members key_eqb key_eqb_iff); exact Hin2. }
  assert (Htuple : fixture_key tbl f1 = fixture_key tbl f2 <->
   (date f1 = date f2 /\ best_time_bucket (time f1) = best_time_bucket (time f2) /\
    norm_team tbl (home f1) = norm_team tbl (home f2) /\
    norm_team tbl (away f1) = norm_team tbl (away f2) /\
    slugify (competition f1) = slugify (competition f2))).
  { revert Hk1 Hk2. unfold fixture_key.
    destruct (best_time_bucket (time f1)) as [b1|], (best_time_bucket (time f2)) as [b2|];
      try discriminate.
    intros _ _. split.
    - intros E; inversion E; subst; tauto.
    - intros (-> & E & -> & -> & ->). inversion E; subst; reflexivity. }
  split; [|split].
  - rewrite Hsame; exact Htuple.
  - intros t m Hm Hr. exists (round_div m 5 * 5).
    split; [exact (best_time_bucket_day t m Hm Hr)|apply round_div_5].
  - intros Hd Hh Ha Hc Ht1 Ht2. apply Hsame, Htuple.
    rewrite Ht1, Ht2. repeat split; assumption.
Qed.

Lemma picks_nodup tbl (gs : list (Key * list Fixture)) :
  NoDup (map fst gs) ->
  (forall k g y, In (k, g) gs -> In y g -> fixture_key tbl y = Some k) ->
  NoDup (map (fixture_key tbl) (flat_map (fun kg => choose (snd kg)) gs)).
Proof.
  induction gs as [|[k g] gs IH]; simpl; intros Hn Hk; [constructor|].
  inversion Hn as [|? ? Hn0 Hn1]; subst.
  assert (IH' : NoDup (map (fixture_key tbl) (flat_map (fun kg => choose (snd kg)) gs)))
    by (apply IH; [exact Hn1|intros k' g' y Hg' Hy; apply (Hk k' g'); auto]).
  destruct (choose_cases g) as [E|(w & r & _ & E)]; rewrite E; simpl; [exact IH'|].
  constructor; [|exact IH'].
  rewrite (Hk k g w (or_introl eq_refl) (choose_in g w E)).
  intros Hin. apply in_map_iff in Hin as [y [Hy Hyin]].
  apply in_picks in Hyin as [[k' g'] [Hg' Hc]]. simpl in Hc.
  rewrite (Hk k' g' y (or_intror Hg') (choose_in g' y Hc)) in Hy.
  inversion Hy; subst k'. apply Hn0. apply (in_map fst) in Hg'. exact Hg'.
Qed.

(** C6: [dedupe] is idempotent: run again over its own output it returns
    that output unchanged. *)
Theorem dedupe_idempotent tbl xs ys :
  dedupe tbl xs = Some ys -> dedupe tbl ys = Some ys.
Proof.
  intros Hd. destruct (dedupe_unfold tbl xs ys Hd) as (kxs & Hkx & Hys).
  assert (Hkeys : forall y, In y ys -> exists k, fixture_key tbl y = Some k).
  { intros y Hy. apply (in_dedupe_out tbl xs kxs ys y Hkx Hys) in Hy as (k & g & Hg & Hc).
    exists k. exact (in_group_key tbl xs kxs k g y Hkx Hg (choose_in g y Hc)). }
  destruct (map_opt_some (fun f => option_map (fun k => (k, f)) (fixture_key tbl f)) ys)
    as [kys Hkys].
  { intros y Hy. destruct (Hkeys y Hy) as [k Hk]. rewrite Hk. discriminate. }
  fold (keyed tbl ys) in Hkys.
  pose proof (keyed_spec tbl ys kys Hkys) as [Hsnd Hfst].
  assert (Hnd : NoDup (map (fixture_key tbl) ys)).
  { rewrite Hys. unfold sort_chrono.
    eapply Permutation_NoDup; [apply Permutation_map, Permutation_sym, sort_by_perm|].
    apply picks_nodup.
    - apply group_by_nodup. exact key_eqb_iff.
    - intros k g y Hg Hy; exact (in_group_key tbl xs kxs k g y Hkx Hg Hy). }
  assert (Hndk : NoDup (map fst kys)).
  { apply (NoDup_map_inv (@Some Key)). rewrite map_map.
    rewrite <- Hsnd, map_map in Hnd.
    erewrite map_ext_in; [exact Hnd|]. intros ka Hka. simpl. symmetry. apply Hfst, Hka. }
  unfold dedupe. rewrite Hkys, (group_by_distinct key_eqb key_eqb_iff kys Hndk).
  assert (Hfm : flat_map (fun kg => choose (snd kg)) (map (fun ka => (fst ka, [snd ka])) kys) = ys).
  { rewrite <- Hsnd. clear. induction kys as [|ka kys IH]; simpl; [reflexivity|].
    rewrite IH. reflexivity. }
  rewrite Hfm. f_equal. unfold sort_chrono. apply (sort_by_id chrono_before).
  rewrite Hys. apply (sort_by_sorted chrono_before chrono_before_asym).
Qed.

(* ================================================================== *)
(** * Competitions and popularity *)

Lemma sorted_order {A} (before : A -> A -> bool) l a b :
  (forall x, before x x = false) ->
  StronglySorted (not_after before) l -> In a l -> In b l -> before a b = true ->
  exists pre post, l = (pre ++ a :: post)%list /\ In b post.
Proof.
  intros Hirr Hs. induction Hs as [|x l Hs IH Hx]; intros Ha Hb Hab; [contradiction|].
  destruct Ha as [<-|Ha].
  - destruct Hb as [<-|Hb]; [rewrite Hirr in Hab; discriminate|].
    exists [], l; split; [reflexivity|exact Hb].
  - destruct Hb as [<-|Hb].
    + rewrite Forall_forall in Hx. specialize (Hx a Ha). unfold not_after in Hx. congruence.
    + destruct (IH Ha Hb Hab) as (pre & post & -> & Hp).
      exists (x :: pre), post; split; [reflexivity|exact Hp].
Qed.

Lemma comp_before_asym a b : comp_before a b = true -> comp_before b a = false.
Proof.
  unfold comp_before. destruct cmp_prio_ok as [Ha _].
  rewrite (Ha (comp_key b)). destruct (cmp_prio (comp_key a) (comp_key b)); simpl; congruence.
Qed.

Lemma comp_not_after_trans a b c :
  not_after comp_before a b -> not_after comp_before b c -> not_after comp_before a c.
Proof.
  unfold not_after, comp_before. intros H1 H2. destruct cmp_prio_ok as [Ha _].
  destruct (cmp_prio (comp_key c) (comp_key a)) eqn:E; auto.
  exfalso. apply (cmp_le_trans cmp_prio cmp_prio_ok (comp_key a) (comp_key b) (comp_key c)).
  - rewrite Ha. destruct (cmp_prio (comp_key b) (comp_key a)); simpl; congruence.
  - rewrite Ha. destruct (cmp_prio (comp_key c) (comp_key b)); simpl; congruence.
  - rewrite Ha, E. reflexivity.
Qed.

Lemma competitions_popularity ltu fixtures cs c :
  competitions_from_fixtures ltu fixtures = Some cs -> In c cs ->
  popularity c = popularity_score (name c).
Proof.
  unfold competitions_from_fixtures.
  match goal with |- context [map_opt ?F ?L] => destruct (map_opt F L) as [out|] eqn:E end;
    [|discriminate].
  intros H Hc; inversion H; subst cs.
  apply (Permutation_in _ (sort_by_perm _ _)) in Hc.
  destruct (map_opt_in _ _ _ E c Hc) as ([nm items] & _ & Hf). simpl in Hf.
  destruct (sort_chrono items) as [|first r]; [discriminate|].
  destruct (fromisoformat _) as [dt|]; [|discriminate].
  destruct (iso_z ltu dt); [|discriminate]. inversion Hf; reflexivity.
Qed.

Lemma competitions_sorted ltu fixtures cs :
  competitions_from_fixtures ltu fixtures = Some cs ->
  StronglySorted (not_after comp_before) cs.
Proof.
  unfold competitions_from_fixtures.
  match goal with |- context [map_opt ?F ?L] => destruct (map_opt F L) as [out|] eqn:E end;
    [|discriminate].
  intros H; inversion H; subst cs.
  apply Sorted_StronglySorted; [intros a b c; apply comp_not_after_trans|].
  apply Sorted_LocallySorted_iff, sort_by_sorted, comp_before_asym.
Qed.

(** C3 (counterexample): ["senior championship"] is a substring test, and
    "all-ireland senior football championship" does not contain it, so the
    name scores 100, not 160. *)
Lemma popularity_all_ireland_sfc_not_160 :
  popularity_score "All-Ireland Senior Football Championship" = 100 /\
  popularity_score "All-Ireland Senior Football Championship" <> 160.
Proof. split; [vm_compute; reflexivity|vm_compute; discriminate]. Qed.

(** C3 (amended): the popularity score is the sum of the additive keyword
    rules, each a substring test on the lowercased name;
    "All-Ireland Senior Football Championship" scores 100 (only
    "all-ireland" occurs), "Division 2 League" scores 30, and in the
    aggregator's output the former comes first. *)
Theorem popularity_score_rules ltu fixtures cs c1 c2 :
  competitions_from_fixtures ltu fixtures = Some cs -> In c1 cs -> In c2 cs ->
  name c1 = "All-Ireland Senior Football Championship" -> name c2 = "Division 2 League" ->
  (forall nm, popularity_score nm = rules_score (lower nm)) /\
  popularity_score "All-Ireland Senior Football Championship" = 100 /\
  popularity_score "Division 2 League" = 30 /\
  exists pre post, cs = (pre ++ c1 :: post)%list /\ In c2 post.
Proof.
  intros Hc H1 H2 N1 N2. split; [|split; [|split]].
  - intros nm. unfold popularity_score, rules_score, contains_any; simpl.
    rewrite !orb_false_r. lia.
  - vm_compute; reflexivity.
  - vm_compute; reflexivity.
  - apply (sorted_order comp_before); auto.
    + intros x. unfold comp_before. rewrite (cmp_refl cmp_prio cmp_prio_ok). reflexivity.
    + eapply competitions_sorted; eauto.
    + unfold comp_before, comp_key.
      rewrite (competitions_popularity ltu fixtures cs c1 Hc H1),
              (competitions_popularity ltu fixtures cs c2 Hc H2), N1, N2.
      vm_compute. reflexivity.
Qed.

(* ================================================================== *)
(** * The placeholder classifier *)

(** C4 (evaluation at the failing input): ["Sligo/Mayo"] has the form
    "X/Y" and no versus marker, yet it is not classified as a placeholder:
    the class [[^vvs]] rejects every first alternative containing [v] or [s]. *)
Lemma is_placeholder_team_sligo_mayo :
  re_search versus_word "Sligo/Mayo" = false /\
  re_match slash_pair "Sligo/Mayo" = false /\
  is_placeholder_team "Sligo/Mayo" = false /\
  is_placeholder_team "Kerry/Mayo" = true.
Proof. vm_compute. repeat split. Qed.

Lemma firstn_in {A} n (l : list A) x : In x (firstn n l) -> In x l.
Proof.
  intros H. rewrite <- (firstn_skipn n l). apply in_or_app. left; exact H.
Qed.

Lemma collapse_sub tbl l f :
  In f (collapse_future_duplicates tbl l) -> In f l.
Proof.
  unfold collapse_future_duplicates, sort_chrono. intros H.
  apply (Permutation_in _ (sort_by_perm chrono_before _)) in H.
  apply filter_In in H. exact (proj1 H).
Qed.

Lemma select_windows_sub cfg today m up rec :
  select_windows cfg today m = Some (up, rec) ->
  (forall f, In f up -> In f m) /\ (forall f, In f rec -> In f m).
Proof.
  unfold select_windows.
  destruct (add_days today (- results_days_back cfg)) as [sr|]; [|discriminate].
  destruct (add_days today (days_forward cfg)) as [ef|]; [|discriminate].
  destruct (add_days today (scraper_days_forward cfg)) as [es|]; [|discriminate].
  destruct (filter (in_recent _ _) m) as [|r rs] eqn:Er.
  - destruct (add_days today (- results_fallback_days cfg)) as [co|]; [|discriminate].
    intros H; injection H as <- <-. split.
    + intros f Hf. apply filter_In in Hf. exact (proj1 Hf).
    + intros f Hf. apply (firstn_in 50) in Hf.
      apply (Permutation_in _ (sort_by_perm chrono_desc_before _)) in Hf.
      apply filter_In in Hf. exact (proj1 Hf).
  - intros H; injection H as <- <-. split.
    + intros f Hf. apply filter_In in Hf. exact (proj1 Hf).
    + intros f Hf. rewrite <- Er in Hf. apply filter_In in Hf. exact (proj1 Hf).
Qed.

(** C10: the classifier answers [true] on the empty name, while none of
    its pattern or keyword rules matches it; so no fixture published by
    [build] (upcoming or results) has an empty home or away team. *)
Theorem empty_team_is_placeholder ltu tbl cfg today fixtures up rec comps :
  build ltu tbl cfg today fixtures = Some (up, rec, comps) ->
  is_placeholder_team "" = true /\
  re_search placeholder_simple "" = false /\ contains_any ph_words "" = false /\
  re_search placeholder_stage "" = false /\ re_search placeholder_group "" = false /\
  re_match placeholder_short "" = false /\ re_match slash_pair "" = false /\
  forall f, In f (up ++ rec)%list -> home f <> "" /\ away f <> "".
Proof.
  intros Hb. assert (H0 : is_placeholder_team "" = true) by (vm_compute; reflexivity).
  split; [exact H0|]. do 6 (split; [vm_compute; reflexivity|]).
  unfold build in Hb.
  destruct (dedupe tbl (map (build_search_index tbl) fixtures)) as [merged|]; [|discriminate].
  destruct (select_windows cfg today _) as [[u r]|] eqn:Ew; [|discriminate].
  destruct (competitions_from_fixtures ltu u); [|discriminate].
  injection Hb as <- <- _.
  destruct (select_windows_sub _ _ _ _ _ Ew) as [Hu Hr].
  intros f Hf. apply in_app_or in Hf.
  assert (Hm : In f (collapse_future_duplicates tbl
             (filter (fun f => negb (is_placeholder_team (home f)
                                     || is_placeholder_team (away f))) merged)))
    by (destruct Hf; auto).
  apply collapse_sub, filter_In in Hm. destruct Hm as [_ Hp].
  apply negb_true_iff, orb_false_iff in Hp. destruct Hp as [Hh Ha].
  split; intros E; [rewrite E, H0 in Hh | rewrite E, H0 in Ha]; discriminate.
Qed.

(* ================================================================== *)
(** * The duplicate collapser and the competition kickoff *)

(** C5 (evaluation at the failing input): [ics_a] and [ics_b] form the
    (Dublin, Kerry) group and [ics_a] is its earliest member, yet [ics_b]
    is kept as well: its id equals the id kept for the (Cork, Mayo)
    group, and [keep_ids] is one set of ids shared by all groups. *)
Lemma collapse_keeps_later_member_on_shared_id :
  pair_key [] ics_a = pair_key [] ics_b /\
  pair_key [] ics_c <> pair_key [] ics_a /\
  chrono_before ics_a ics_b = true /\
  id ics_b = id ics_c /\
  collapse_future_duplicates [] [ics_a; ics_b; ics_c] = [ics_a; ics_b; ics_c].
Proof. vm_compute. repeat split; try reflexivity; discriminate. Qed.

(** C7 (evaluation at the failing input): for a group whose earliest
    member kicks off on 2025-07-05 at 15:00 (BST), on a host whose local
    zone is UTC [first_kickoff] is "2025-07-05T15:00:00Z", while the
    London reading of that wall time is the instant 14:00 UTC. *)
Lemma first_kickoff_uses_host_zone :
  competitions_from_fixtures (fun w => w) [summer_fx] =
    Some [mkCompetition "Ulster SFC" "ulster-sfc" 80 1 "2025-07-05T15:00:00Z"] /\
  format_utc (london_to_utc (wall_seconds (mkDate 2025 7 5, 15, 0, 0))) =
    "2025-07-05T14:00:00Z".
Proof. split; vm_compute; reflexivity. Qed.

(* ================================================================== *)
(** * The results window and its fallback *)

Lemma chrono_desc_before_asym a b :
  chrono_desc_before a b = true -> chrono_desc_before b a = false.
Proof.
  unfold chrono_desc_before. destruct cmp_str2_ok as [Ha _].
  rewrite (Ha (date b, time b)). destruct (cmp_str2 (date a, time a) (date b, time b)); simpl; congruence.
Qed.

Lemma status_eqb_true a b : status_eqb a b = true -> a = b.
Proof. destruct a, b; simpl; congruence. Qed.

Lemma filter_none {A} (p : A -> bool) l : (forall x, In x l -> p x = false) -> filter p l = [].
Proof.
  induction l as [|x l IH]; intros H; simpl; [reflexivity|].
  rewrite (H x (or_introl eq_refl)). apply IH. intros y Hy; apply H; right; exact Hy.
Qed.

(** C9: when no fixture of [merged] lies in the recent window
    ([start_results <= date <= today]) with status FT or a non-empty
    score, the results list is the first 50 of the FT fixtures dated on or
    after [today - results_fallback_days], sorted by descending
    [(date, time)]; it holds only FT fixtures and at most 50 of them. *)
Theorem results_fallback cfg today merged up rec sr co :
  select_windows cfg today merged = Some (up, rec) ->
  add_days today (- results_days_back cfg) = Some sr ->
  add_days today (- results_fallback_days cfg) = Some co ->
  (forall f, In f merged -> str_le (iso_date sr) (date f) = true ->
     str_le (date f) (iso_date today) = true -> status f <> FT /\ score_text f = "") ->
  exists cands,
    Permutation cands
      (filter (fun f => status_eqb (status f) FT && str_le (iso_date co) (date f)) merged) /\
    LocallySorted (not_after chrono_desc_before) cands /\
    rec = firstn 50 cands /\
    (forall f, In f rec -> status f = FT) /\ (List.length rec <= 50)%nat.
Proof.
  intros Hw Hsr Hco Hnone. unfold select_windows in Hw. rewrite Hsr in Hw.
  destruct (add_days today (days_forward cfg)) as [ef|]; [|discriminate].
  destruct (add_days today (scraper_days_forward cfg)) as [es|]; [|discriminate].
  rewrite (filter_none (in_recent _ _)) in Hw.
  2:{ intros f Hf. unfold in_recent.
      destruct (str_le (iso_date sr) (date f)) eqn:E1; [|reflexivity].
      destruct (str_le (date f) (iso_date today)) eqn:E2; [|reflexivity].
      destruct (Hnone f Hf E1 E2) as [Hs Hsc]. rewrite Hsc. simpl.
      destruct (status_eqb (status f) FT) eqn:E3; [|reflexivity].
      apply status_eqb_true in E3. contradiction. }
  rewrite Hco in Hw. injection Hw as _ <-.
  eexists; split; [|split; [|split; [reflexivity|split]]].
  - apply sort_by_perm.
  - apply sort_by_sorted, chrono_desc_before_asym.
  - intros f Hf. apply (firstn_in 50) in Hf.
    apply (Permutation_in _ (sort_by_perm chrono_desc_before _)), filter_In in Hf.
    destruct Hf as [_ Hf]. apply andb_true_iff in Hf. apply status_eqb_true, Hf.
  - pose proof (length_firstn 50 (sort_by chrono_desc_before
      (filter (fun f => status_eqb (status f) FT && str_le (iso_date co) (date f)) merged))) as L.
    simpl firstn in L. rewrite L. lia.
Qed.

(* ================================================================== *)
(** * ISO date strings and the calendar order *)

Lemma string_length_app s t : String.length (s ++ t) = (String.length s + String.length t)%nat.
Proof. induction s as [|c s IH]; simpl; [reflexivity|]. rewrite IH; reflexivity. Qed.

Lemma string_compare_app s1 s2 t1 t2 :
  String.length s1 = String.length s2 ->
  String.compare (s1 ++ t1) (s2 ++ t2) =
  match String.compare s1 s2 with Eq => String.compare t1 t2 | c => c end.
Proof.
  revert s2. induction s1 as [|c1 s1 IH]; intros [|c2 s2] H; simpl in *; try discriminate;
    [reflexivity|].
  destruct (Ascii.compare c1 c2); auto.
Qed.

Lemma pad_length n v : String.length (pad n v) = n.
Proof.
  revert v. induction n as [|n IH]; intros v; simpl; [reflexivity|].
  rewrite string_length_app, IH. simpl. lia.
Qed.

Lemma digit_char_compare a b :
  0 <= a <= 9 -> 0 <= b <= 9 -> Ascii.compare (digit_char a) (digit_char b) = Z.compare a b.
Proof.
  intros Ha Hb. unfold Ascii.compare, digit_char.
  rewrite !N_ascii_embedding by lia.
  rewrite Z2N.inj_compare by lia. apply Z.add_compare_mono_l.
Qed.

Lemma compare_div_mod a b :
  0 <= a -> 0 <= b ->
  Z.compare a b =
  match Z.compare (a / 10) (b / 10) with Eq => Z.compare (a mod 10) (b mod 10) | c => c end.
Proof.
  intros Ha Hb.
  pose proof (Z.div_mod a 10 ltac:(lia)). pose proof (Z.div_mod b 10 ltac:(lia)).
  pose proof (Z.mod_pos_bound a 10 ltac:(lia)). pose proof (Z.mod_pos_bound b 10 ltac:(lia)).
  destruct (Z.compare_spec (a / 10) (b / 10)).
  - destruct (Z.compare_spec (a mod 10) (b mod 10));
      [apply Z.compare_eq_iff | apply Z.compare_lt_iff | apply Z.compare_gt_iff]; lia.
  - apply Z.compare_lt_iff; lia.
  - apply Z.compare_gt_iff; lia.
Qed.

Lemma pad_compare n a b :
  0 <= a < 10 ^ Z.of_nat n -> 0 <= b < 10 ^ Z.of_nat n ->
  String.compare (pad n a) (pad n b) = Z.compare a b.
Proof.
  revert a b. induction n as [|n IH]; intros a b Ha Hb.
  - simpl in *. replace a with 0 by lia. replace b with 0 by lia. reflexivity.
  - rewrite Nat2Z.inj_succ, Z.pow_succ_r in Ha, Hb by lia.
    simpl. rewrite string_compare_app by (rewrite !pad_length; reflexivity).
    rewrite IH by (split; [apply Z.div_pos | apply Z.div_lt_upper_bound]; lia).
    rewrite (compare_div_mod a b) by lia.
    destruct (Z.compare (a / 10) (b / 10)); try reflexivity. simpl.
    pose proof (Z.mod_pos_bound a 10 ltac:(lia)). pose proof (Z.mod_pos_bound b 10 ltac:(lia)).
    rewrite digit_char_compare by lia.
    destruct (Z.compare (a mod 10) (b mod 10)); reflexivity.
Qed.

Lemma days_in_month_bounds y m : 28 <= days_in_month y m <= 31.
Proof. unfold days_in_month. destruct (m =? 2), (is_leap y); try destruct (_ || _); lia. Qed.

Lemma string_compare_cons_same c s t : String.compare (String c s) (String c t) = String.compare s t.
Proof. simpl. unfold Ascii.compare. rewrite N.compare_refl. reflexivity. Qed.

Lemma iso_date_compare a b :
  valid_date a -> valid_date b -> String.compare (iso_date a) (iso_date b) = date_cmp a b.
Proof.
  intros Ha Hb. pose proof (days_in_month_bounds (year a) (month a)).
  pose proof (days_in_month_bounds (year b) (month b)).
  unfold valid_date in *. unfold iso_date, date_cmp.
  rewrite string_compare_app by (rewrite !pad_length; reflexivity).
  rewrite pad_compare by (simpl; lia).
  destruct (Z.compare (year a) (year b)); try reflexivity.
  cbn [String.append]. rewrite string_compare_cons_same.
  rewrite string_compare_app by (rewrite !pad_length; reflexivity).
  rewrite pad_compare by (simpl; lia).
  destruct (Z.compare (month a) (month b)); try reflexivity.
  cbn [String.append]. rewrite string_compare_cons_same.
  apply pad_compare; simpl; lia.
Qed.

Lemma str_le_iso a b :
  valid_date a -> valid_date b -> str_le (iso_date a) (iso_date b) = true <-> date_le a b.
Proof.
  intros Ha Hb. unfold str_le, date_le. rewrite iso_date_compare by assumption.
  destruct (date_cmp a b); split; congruence.
Qed.

Lemma date_cmp_ord a b :
  valid_date a -> valid_date b -> date_cmp a b = Z.compare (date_ord a) (date_ord b).
Proof.
  intros Ha Hb. pose proof (days_in_month_bounds (year a) (month a)).
  pose proof (days_in_month_bounds (year b) (month b)).
  unfold valid_date, date_cmp, date_ord in *.
  destruct (Z.compare_spec (year a) (year b)).
  - destruct (Z.compare_spec (month a) (month b)).
    + symmetry. destruct (Z.compare_spec (day a) (day b));
        [apply Z.compare_eq_iff | apply Z.compare_lt_iff | apply Z.compare_gt_iff]; lia.
    + symmetry; apply Z.compare_lt_iff; lia.
    + symmetry; apply Z.compare_gt_iff; lia.
  - symmetry; apply Z.compare_lt_iff; lia.
  - symmetry; apply Z.compare_gt_iff; lia.
Qed.

(* ================================================================== *)
(** * Stepping through the calendar *)

Lemma next_day_spec d d' :
  valid_date d -> next_day d = Some d' -> valid_date d' /\ date_ord d + 1 <= date_ord d'.
Proof.
  unfold valid_date, next_day, date_ord. intros Hv H.
  pose proof (days_in_month_bounds (year d) (month d)).
  pose proof (days_in_month_bounds (year d) (month d + 1)).
  pose proof (days_in_month_bounds (year d + 1) 1).
  destruct (Z.ltb_spec (day d) (days_in_month (year d) (month d)));
    [injection H as <-; simpl; lia|].
  destruct (Z.ltb_spec (month d) 12); [injection H as <-; simpl; lia|].
  destruct (Z.ltb_spec (year d) 9999); [injection H as <-; simpl; lia|discriminate].
Qed.

Lemma prev_day_spec d d' :
  valid_date d -> prev_day d = Some d' -> valid_date d' /\ date_ord d' + 1 <= date_ord d.
Proof.
  unfold valid_date, prev_day, date_ord. intros Hv H.
  pose proof (days_in_month_bounds (year d) (month d - 1)).
  assert (D12 : forall y, days_in_month y 12 = 31) by reflexivity.
  destruct (Z.ltb_spec 1 (day d)); [injection H as <-; simpl; lia|].
  destruct (Z.ltb_spec 1 (month d)); [injection H as <-; simpl; lia|].
  destruct (Z.ltb_spec 1 (year d)); [injection H as <-; simpl; rewrite D12; lia|discriminate].
Qed.

Lemma iter_opt_add {A} (f : A -> option A) k j x :
  iter_opt f (k + j) x = match iter_opt f k x with Some y => iter_opt f j y | None => None end.
Proof.
  revert x. induction k as [|k IH]; intros x; simpl; [reflexivity|].
  destruct (f x); [apply IH|reflexivity].
Qed.

Lemma iter_next_spec k d d' :
  valid_date d -> iter_opt next_day k d = Some d' ->
  valid_date d' /\ date_ord d + Z.of_nat k <= date_ord d'.
Proof.
  revert d. induction k as [|k IH]; intros d Hv H; simpl in H.
  - injection H as <-. split; [exact Hv|lia].
  - destruct (next_day d) as [e|] eqn:E; [|discriminate].
    destruct (next_day_spec d e Hv E) as [He Ho].
    destruct (IH e He H) as [H1 H2]. split; [exact H1|lia].
Qed.

Lemma iter_prev_spec k d d' :
  valid_date d -> iter_opt prev_day k d = Some d' ->
  valid_date d' /\ date_ord d' + Z.of_nat k <= date_ord d.
Proof.
  revert d. induction k as [|k IH]; intros d Hv H; simpl in H.
  - injection H as <-. split; [exact Hv|lia].
  - destruct (prev_day d) as [e|] eqn:E; [|discriminate].
    destruct (prev_day_spec d e Hv E) as [He Ho].
    destruct (IH e He H) as [H1 H2]. split; [exact H1|lia].
Qed.

Lemma add_days_valid d n a : valid_date d -> add_days d n = Some a -> valid_date a.
Proof.
  unfold add_days. intros Hv H. destruct (0 <=? n).
  - exact (proj1 (iter_next_spec _ _ _ Hv H)).
  - exact (proj1 (iter_prev_spec _ _ _ Hv H)).
Qed.

Lemma add_days_mono d n m a b :
  valid_date d -> add_days d n = Some a -> add_days d m = Some b -> n < m ->
  date_ord a < date_ord b.
Proof.
  unfold add_days. intros Hv Ha Hb Hnm.
  destruct (Z.leb_spec 0 n); destruct (Z.leb_spec 0 m); try lia.
  - replace (Z.to_nat m) with (Z.to_nat n + Z.to_nat (m - n))%nat in Hb by lia.
    rewrite iter_opt_add, Ha in Hb.
    destruct (iter_next_spec _ _ _ Hv Ha) as [Hva _].
    destruct (iter_next_spec _ _ _ Hva Hb) as [_ Ho]. lia.
  - destruct (iter_prev_spec _ _ _ Hv Ha) as [_ Ho1].
    destruct (iter_next_spec _ _ _ Hv Hb) as [_ Ho2]. lia.
  - replace (Z.to_nat (- n)) with (Z.to_nat (- m) + Z.to_nat (m - n))%nat in Ha by lia.
    rewrite iter_opt_add, Hb in Ha.
    destruct (iter_prev_spec _ _ _ Hv Hb) as [Hvb _].
    destruct (iter_prev_spec _ _ _ Hvb Ha) as [_ Ho]. lia.
Qed.

(* ================================================================== *)
(** * The upcoming window *)

Lemma select_windows_upcoming cfg today m up rec ef es :
  select_windows cfg today m = Some (up, rec) ->
  add_days today (days_forward cfg) = Some ef ->
  add_days today (scraper_days_forward cfg) = Some es ->
  up = filter (in_upcoming (iso_date today) (iso_date ef) (iso_date es)) m.
Proof.
  unfold select_windows. intros Hw Hef Hes. rewrite Hef, Hes in Hw.
  destruct (add_days today (- results_days_back cfg)) as [sr|]; [|discriminate].
  destruct (filter (in_recent _ _) m).
  - destruct (add_days today (- results_fallback_days cfg)); [|discriminate].
    injection Hw as <- _. reflexivity.
  - injection Hw as <- _. reflexivity.
Qed.

Lemma upcoming_window_iff cfg today merged up rec ef es f d :
  valid_date today ->
  select_windows cfg today merged = Some (up, rec) ->
  add_days today (days_forward cfg) = Some ef ->
  add_days today (scraper_days_forward cfg) = Some es ->
  valid_date d -> date f = iso_date d ->
  (In f up <-> In f merged /\ date_le today d /\
     (date_le d ef \/ (source f = "scraper" /\ date_le d es))).
Proof.
  intros Ht Hw Hef Hes Hd Hf.
  pose proof (add_days_valid _ _ _ Ht Hef) as Vef.
  pose proof (add_days_valid _ _ _ Ht Hes) as Ves.
  rewrite (select_windows_upcoming _ _ _ _ _ _ _ Hw Hef Hes), filter_In.
  unfold in_upcoming. rewrite Hf, andb_true_iff, orb_true_iff, andb_true_iff, String.eqb_eq,
    !str_le_iso by assumption.
  reflexivity.
Qed.

Lemma date_le_ord a b : valid_date a -> valid_date b -> date_le a b <-> date_ord a <= date_ord b.
Proof.
  intros Ha Hb. unfold date_le. rewrite date_cmp_ord by assumption.
  rewrite Z.compare_gt_iff. lia.
Qed.

(** C8: a fixture whose date is the ISO form of a valid date [d] is in the
    upcoming window iff it is a fixture of [merged], [today <= d], and
    [d <= today + days_forward] or it comes from the scraper with
    [d <= today + scraper_days_forward]; with [today = 2025-11-01] and
    [days_forward = 14], a fixture dated 2025-11-15 is in the window and
    one dated 2025-11-16 is in it iff its source is the scraper and
    [scraper_days_forward >= 15]. *)
Theorem upcoming_window cfg today merged up rec ef es :
  valid_date today ->
  select_windows cfg today merged = Some (up, rec) ->
  add_days today (days_forward cfg) = Some ef ->
  add_days today (scraper_days_forward cfg) = Some es ->
  (forall f d, valid_date d -> date f = iso_date d ->
     (In f up <-> In f merged /\ date_le today d /\
        (date_le d ef \/ (source f = "scraper" /\ date_le d es)))) /\
  (today = mkDate 2025 11 1 -> days_forward cfg = 14 -> forall f, In f merged ->
     (date f = "2025-11-15" -> In f up) /\
     (date f = "2025-11-16" ->
        (In f up <-> source f = "scraper" /\ 15 <= scraper_days_forward cfg))).
Proof.
  intros Ht Hw Hef Hes. split.
  { intros f d Hd Hf. exact (upcoming_window_iff cfg today merged up rec ef es f d Ht Hw Hef Hes Hd Hf). }
  intros -> Hdf f Hm.
  assert (E15 : add_days (mkDate 2025 11 1) (days_forward cfg) = Some (mkDate 2025 11 15))
    by (rewrite Hdf; vm_compute; reflexivity).
  rewrite E15 in Hef. injection Hef as <-.
  assert (V15 : valid_date (mkDate 2025 11 15)) by (unfold valid_date, days_in_month, is_leap; simpl; lia).
  assert (V16 : valid_date (mkDate 2025 11 16)) by (unfold valid_date, days_in_month, is_leap; simpl; lia).
  assert (V1 : valid_date (mkDate 2025 11 1)) by (unfold valid_date, days_in_month, is_leap; simpl; lia).
  pose proof (add_days_valid _ _ _ V1 Hes) as Ves.
  split; intros Hf.
  - apply (upcoming_window_iff cfg _ merged up rec _ es f (mkDate 2025 11 15) V1 Hw E15 Hes V15 Hf).
    split; [exact Hm|]. split; [|left]; rewrite date_le_ord by assumption; vm_compute; discriminate.
  - rewrite (upcoming_window_iff cfg _ merged up rec _ es f (mkDate 2025 11 16) V1 Hw E15 Hes V16 Hf).
    rewrite !date_le_ord by assumption.
    assert (A15 : add_days (mkDate 2025 11 1) 15 = Some (mkDate 2025 11 16)) by (vm_compute; reflexivity).
    assert (Hs : date_ord (mkDate 2025 11 16) <= date_ord es <-> 15 <= scraper_days_forward cfg).
    { destruct (Z.lt_trichotomy (scraper_days_forward cfg) 15) as [Hl|[He|Hg]].
      - pose proof (add_days_mono _ _ _ _ _ V1 Hes A15 Hl). lia.
      - rewrite He, A15 in Hes. injection Hes as <-. lia.
      - pose proof (add_days_mono _ _ _ _ _ V1 A15 Hes Hg). lia. }
    rewrite Hs. vm_compute. intuition (try discriminate).
Qed.

(* ================================================================== *)
(** * The duplicate collapser with distinct ids *)

Lemma pair_eqb_iff a b : pair_eqb a b = true <-> a = b.
Proof.
  destruct a as [a1 a2], b as [b1 b2]; unfold pair_eqb; simpl.
  rewrite andb_true_iff, !String.eqb_eq. split; [intros [-> ->]; reflexivity|].
  intros H; inversion H; auto.
Qed.

Lemma mem_str_In x l : mem_str x l = true <-> In x l.
Proof.
  induction l as [|y l IH]; simpl; [split; [discriminate|contradiction]|].
  rewrite orb_true_iff, String.eqb_eq, IH.
  split; intros [H|H]; [left; symmetry; exact H|right; exact H|left; symmetry; exact H|right; exact H].
Qed.

Lemma members_keyed {K A} (keqb : K -> K -> bool) (key : A -> K) k xs :
  members keqb k (map (fun x => (key x, x)) xs) = filter (fun x => keqb (key x) k) xs.
Proof.
  induction xs as [|x xs IH]; [reflexivity|]. unfold members in *. simpl.
  destruct (keqb (key x) k); simpl; rewrite IH; reflexivity.
Qed.

Lemma filter_filter_andb {A} (p q : A -> bool) l :
  filter q (filter p l) = filter (fun x => p x && q x) l.
Proof.
  induction l as [|x l IH]; simpl; [reflexivity|].
  destruct (p x); simpl; [destruct (q x); simpl; rewrite IH; reflexivity|exact IH].
Qed.

Lemma nodup_map_inj {A B} (g : A -> B) l a b :
  NoDup (map g l) -> In a l -> In b l -> g a = g b -> a = b.
Proof.
  induction l as [|x l IH]; simpl; [contradiction|]. intros Hn Ha Hb E.
  inversion Hn as [|? ? Hx Hn']; subst.
  destruct Ha as [<-|Ha], Hb as [<-|Hb]; auto.
  - exfalso. apply Hx. rewrite E. apply in_map, Hb.
  - exfalso. apply Hx. rewrite <- E. apply in_map, Ha.
Qed.

Lemma keep_id_head items :
  items <> [] -> exists h r, sort_chrono items = h :: r /\ keep_id items = [id h].
Proof.
  intros Hne. destruct items as [|x [|y l]]; [congruence| |].
  - exists x, []. split; reflexivity.
  - change (keep_id (x :: y :: l)) with
      (match sort_chrono (x :: y :: l) with [] => [] | first :: _ => [id first] end).
    destruct (sort_chrono (x :: y :: l)) as [|h r] eqn:E.
    + pose proof (sort_by_perm chrono_before (x :: y :: l)) as P.
      unfold sort_chrono in E. rewrite E in P. apply Permutation_nil in P. discriminate.
    + exists h, r. split; reflexivity.
Qed.

(** [collapse_future_duplicates] keeps every FT fixture, returns a
    sub-list of its input sorted by [(date, time)], and, when the non-FT
    fixtures have pairwise distinct ids, keeps a non-FT fixture exactly
    when it is the first of its (home, away) group sorted by
    [(date, time)]. *)
Theorem collapse_future_duplicates_spec tbl l :
  (forall f, In f l -> status f = FT -> In f (collapse_future_duplicates tbl l)) /\
  LocallySorted (not_after chrono_before) (collapse_future_duplicates tbl l) /\
  (forall f, In f (collapse_future_duplicates tbl l) -> In f l) /\
  (NoDup (map id (filter (fun f => negb (status_eqb (status f) FT)) l)) ->
   forall f, In f l -> status f <> FT ->
   (In f (collapse_future_duplicates tbl l) <->
    exists r, sort_chrono (filter (fun g => negb (status_eqb (status g) FT)
                              && pair_eqb (pair_key tbl g) (pair_key tbl f)) l) = f :: r)).
Proof.
  set (nf := filter (fun f => negb (status_eqb (status f) FT)) l).
  set (groups := group_by pair_eqb (map (fun f => (pair_key tbl f, f)) nf)).
  set (keep_ids := flat_map (fun kg => keep_id (snd kg)) groups).
  set (in_groups := fun k => existsb (fun kg => pair_eqb k (fst kg)) groups).
  assert (Hc : forall f, In f (collapse_future_duplicates tbl l) <->
     In f l /\ (status_eqb (status f) FT || (in_groups (pair_key tbl f) && mem_str (id f) keep_ids)
                || negb (in_groups (pair_key tbl f))) = true).
  { intros f. unfold collapse_future_duplicates, sort_chrono. cbv zeta. split.
    - intros H. apply (Permutation_in _ (sort_by_perm chrono_before _)), filter_In in H. exact H.
    - intros H. apply (Permutation_in _ (Permutation_sym (sort_by_perm chrono_before _))), filter_In.
      exact H. }
  split; [|split; [|split]].
  - intros f Hf Hs. apply Hc. split; [exact Hf|]. rewrite Hs. reflexivity.
  - unfold collapse_future_duplicates, sort_chrono. apply sort_by_sorted, chrono_before_asym.
  - intros f H. apply Hc in H. exact (proj1 H).
  - intros Hnd f Hf Hs.
    assert (Hsf : status_eqb (status f) FT = false) by (destruct (status f); simpl; congruence).
    assert (Hnf : In f nf) by (apply filter_In; split; [exact Hf|rewrite Hsf; reflexivity]).
    set (G := filter (fun g => pair_eqb (pair_key tbl g) (pair_key tbl f)) nf).
    assert (HG : filter (fun g => negb (status_eqb (status g) FT)
                   && pair_eqb (pair_key tbl g) (pair_key tbl f)) l = G)
      by (unfold G, nf; rewrite filter_filter_andb; reflexivity).
    rewrite HG.
    assert (HfG : In f G) by (apply filter_In; split; [exact Hnf|apply pair_eqb_iff; reflexivity]).
    assert (Hgr : In (pair_key tbl f, G) groups).
    { apply (in_group_by pair_eqb pair_eqb_iff). split.
      - symmetry. apply members_keyed.
      - intros E; rewrite E in HfG; contradiction. }
    assert (Hin : in_groups (pair_key tbl f) = true).
    { apply existsb_exists. exists (pair_key tbl f, G). split; [exact Hgr|].
      apply pair_eqb_iff; reflexivity. }
    rewrite Hc, Hin, Hsf. simpl. rewrite orb_false_r, mem_str_In.
    split.
    + intros [_ Hk]. apply in_flat_map in Hk as [[k g] [Hkg Hid]].
      apply (in_group_by pair_eqb pair_eqb_iff) in Hkg as [Hgm Hne].
      destruct (keep_id_head g Hne) as (h & r & Hs' & Hk'). simpl in Hid. rewrite Hk' in Hid.
      destruct Hid as [Hid|[]].
      assert (Hh : In h g).
      { apply (Permutation_in _ (sort_by_perm chrono_before g)).
        unfold sort_chrono in Hs'. rewrite Hs'. left; reflexivity. }
      rewrite Hgm, members_keyed in Hh. apply filter_In in Hh as [Hhn Hhk].
      assert (Ehf : h = f) by (apply (nodup_map_inj id nf); auto).
      subst h. apply pair_eqb_iff in Hhk. subst k.
      rewrite Hgm, members_keyed in Hs'. exists r. exact Hs'.
    + intros [r Hr]. split; [exact Hf|]. apply in_flat_map.
      exists (pair_key tbl f, G). split; [exact Hgr|]. simpl.
      destruct (keep_id_head G) as (h & r' & Hs' & Hk').
      { intros E; rewrite E in HfG; contradiction. }
      rewrite Hk'. rewrite Hr in Hs'. injection Hs' as Hfh _. subst h. left; reflexivity.
Qed.

(* ================================================================== *)
(** * Instances at concrete inputs *)

Lemma dedupe_keeps_first_maximal_witness :
  dedupe [] [prio_a; prio_b] = Some [prio_b] /\ In prio_a [prio_a; prio_b] /\
  fixture_key [] prio_a = Some prio_key0 /\
  exists w, In w [prio_b] /\ source w = "gaa_gms" /\
    (forall y, In y (group_of [] prio_key0 [prio_a; prio_b]) ->
       cmp_prio (prio_key y) (prio_key w) <> Gt).
Proof.
  assert (H1 : dedupe [] [prio_a; prio_b] = Some [prio_b]) by (vm_compute; reflexivity).
  assert (H2 : In prio_a [prio_a; prio_b]) by (left; reflexivity).
  assert (H3 : fixture_key [] prio_a = Some prio_key0) by (vm_compute; reflexivity).
  split; [exact H1|]. split; [exact H2|]. split; [exact H3|].
  destruct (dedupe_keeps_first_maximal [] [prio_a; prio_b] [prio_b] prio_a prio_key0 H1 H2 H3)
    as (w & Hg & Hy & _ & Hmax & _ & Hreg).
  exists w. split; [exact Hy|]. split; [|exact Hmax].
  apply Hreg. exists prio_b. split; [vm_compute; right; left; reflexivity|reflexivity].
Defined.

Lemma dedupe_same_group_iff_key_witness :
  keyed [] [prio_a; prio_b] = Some [(prio_key0, prio_a); (prio_key0, prio_b)] /\
  In prio_a [prio_a; prio_b] /\ In prio_b [prio_a; prio_b] /\
  exists k g, In (k, g) (group_by key_eqb [(prio_key0, prio_a); (prio_key0, prio_b)]) /\
    In prio_a g /\ In prio_b g.
Proof.
  assert (H1 : keyed [] [prio_a; prio_b] = Some [(prio_key0, prio_a); (prio_key0, prio_b)])
    by (vm_compute; reflexivity).
  assert (H2 : In prio_a [prio_a; prio_b]) by (left; reflexivity).
  assert (H3 : In prio_b [prio_a; prio_b]) by (right; left; reflexivity).
  split; [exact H1|]. split; [exact H2|]. split; [exact H3|].
  destruct (dedupe_same_group_iff_key [] [prio_a; prio_b] _ prio_a prio_b H1 H2 H3)
    as (_ & _ & H1932).
  apply H1932; reflexivity.
Defined.

Lemma dedupe_idempotent_witness :
  dedupe [] [prio_a; prio_b] = Some [prio_b] /\ dedupe [] [prio_b] = Some [prio_b].
Proof.
  assert (H : dedupe [] [prio_a; prio_b] = Some [prio_b]) by (vm_compute; reflexivity).
  split; [exact H|]. exact (dedupe_idempotent [] [prio_a; prio_b] [prio_b] H).
Defined.

Lemma popularity_score_rules_witness :
  competitions_from_fixtures (fun w => w) [div2_fx; aisfc_fx] = Some [aisfc_comp; div2_comp] /\
  In aisfc_comp [aisfc_comp; div2_comp] /\ In div2_comp [aisfc_comp; div2_comp] /\
  exists pre post, [aisfc_comp; div2_comp] = (pre ++ aisfc_comp :: post)%list /\ In div2_comp post.
Proof.
  assert (H1 : competitions_from_fixtures (fun w => w) [div2_fx; aisfc_fx] =
               Some [aisfc_comp; div2_comp]) by (vm_compute; reflexivity).
  assert (H2 : In aisfc_comp [aisfc_comp; div2_comp]) by (left; reflexivity).
  assert (H3 : In div2_comp [aisfc_comp; div2_comp]) by (right; left; reflexivity).
  split; [exact H1|]. split; [exact H2|]. split; [exact H3|].
  exact (proj2 (proj2 (proj2 (popularity_score_rules (fun w => w) [div2_fx; aisfc_fx]
    [aisfc_comp; div2_comp] aisfc_comp div2_comp H1 H2 H3 eq_refl eq_refl)))).
Defined.

Lemma upcoming_window_witness :
  valid_date (mkDate 2025 11 1) /\
  select_windows win_cfg (mkDate 2025 11 1) [nov15_fx; nov16_fx; ft_fx] =
    Some ([nov15_fx; nov16_fx], [ft_fx]) /\
  add_days (mkDate 2025 11 1) 14 = Some (mkDate 2025 11 15) /\
  add_days (mkDate 2025 11 1) 21 = Some (mkDate 2025 11 22) /\
  (In nov16_fx [nov15_fx; nov16_fx] <->
     source nov16_fx = "scraper" /\ 15 <= scraper_days_forward win_cfg).
Proof.
  assert (Ht : valid_date (mkDate 2025 11 1))
    by (unfold valid_date, days_in_month, is_leap; simpl; lia).
  assert (Hw : select_windows win_cfg (mkDate 2025 11 1) [nov15_fx; nov16_fx; ft_fx] =
               Some ([nov15_fx; nov16_fx], [ft_fx])) by (vm_compute; reflexivity).
  assert (Hef : add_days (mkDate 2025 11 1) 14 = Some (mkDate 2025 11 15)) by (vm_compute; reflexivity).
  assert (Hes : add_days (mkDate 2025 11 1) 21 = Some (mkDate 2025 11 22)) by (vm_compute; reflexivity).
  split; [exact Ht|]. split; [exact Hw|]. split; [exact Hef|]. split; [exact Hes|].
  destruct (upcoming_window win_cfg _ _ _ _ _ _ Ht Hw Hef Hes) as [_ Hex].
  apply (Hex eq_refl eq_refl nov16_fx); [right; left; reflexivity | reflexivity].
Defined.

Lemma results_fallback_witness :
  select_windows win_cfg (mkDate 2025 11 1) [nov15_fx; ft_fx] = Some ([nov15_fx], [ft_fx]) /\
  add_days (mkDate 2025 11 1) (-7) = Some (mkDate 2025 10 25) /\
  add_days (mkDate 2025 11 1) (-30) = Some (mkDate 2025 10 2) /\
  exists cands, Permutation cands [ft_fx] /\ [ft_fx] = firstn 50 cands.
Proof.
  assert (Hw : select_windows win_cfg (mkDate 2025 11 1) [nov15_fx; ft_fx] =
               Some ([nov15_fx], [ft_fx])) by (vm_compute; reflexivity).
  assert (Hsr : add_days (mkDate 2025 11 1) (-7) = Some (mkDate 2025 10 25)) by (vm_compute; reflexivity).
  assert (Hco : add_days (mkDate 2025 11 1) (-30) = Some (mkDate 2025 10 2)) by (vm_compute; reflexivity).
  assert (Hn : forall f, In f [nov15_fx; ft_fx] ->
     str_le (iso_date (mkDate 2025 10 25)) (date f) = true ->
     str_le (date f) (iso_date (mkDate 2025 11 1)) = true -> status f <> FT /\ score_text f = "")
    by (intros f [<-|[<-|[]]]; vm_compute; discriminate).
  split; [exact Hw|]. split; [exact Hsr|]. split; [exact Hco|].
  destruct (results_fallback win_cfg _ _ _ _ _ _ Hw Hsr Hco Hn) as (c & Hp & _ & Hr & _).
  exists c. split; [exact Hp|exact Hr].
Defined.

Lemma empty_team_is_placeholder_witness :
  build (fun w => w) [] win_cfg (mkDate 2025 11 1) [nov15_fx; blank_fx; ft_fx] =
    Some ([build_search_index [] nov15_fx], [build_search_index [] ft_fx],
          [mkCompetition "Ulster SFC" "ulster-sfc" 80 1 "2025-11-15T13:00:00Z"]) /\
  home blank_fx = "" /\
  forall f, In f ([build_search_index [] nov15_fx] ++ [build_search_index [] ft_fx])%list ->
    home f <> "" /\ away f <> "".
Proof.
  assert (Hb : build (fun w => w) [] win_cfg (mkDate 2025 11 1) [nov15_fx; blank_fx; ft_fx] =
    Some ([build_search_index [] nov15_fx], [build_search_index [] ft_fx],
          [mkCompetition "Ulster SFC" "ulster-sfc" 80 1 "2025-11-15T13:00:00Z"]))
    by (vm_compute; reflexivity).
  split; [exact Hb|]. split; [reflexivity|].
  exact (proj2 (proj2 (proj2 (proj2 (proj2 (proj2 (proj2
    (empty_team_is_placeholder (fun w => w) [] _ _ _ _ _ _ Hb)))))))).
Defined.

Lemma collapse_future_duplicates_spec_witness :
  NoDup (map id (filter (fun f => negb (status_eqb (status f) FT)) [ics_a; ics_b])) /\
  collapse_future_duplicates [] [ics_a; ics_b] = [ics_a] /\
  exists r, sort_chrono (filter (fun g => negb (status_eqb (status g) FT)
                        && pair_eqb (pair_key [] g) (pair_key [] ics_a)) [ics_a; ics_b]) = ics_a :: r.
Proof.
  assert (Hnd : NoDup (map id (filter (fun f => negb (status_eqb (status f) FT)) [ics_a; ics_b]))).
  { simpl. constructor; [simpl; intros [H|[]]; discriminate|].
    constructor; [intros []|constructor]. }
  split; [exact Hnd|]. split; [vm_compute; reflexivity|].
  destruct (collapse_future_duplicates_spec [] [ics_a; ics_b]) as (_ & _ & _ & H).
  assert (Ha : In ics_a [ics_a; ics_b]) by (left; reflexivity).
  assert (Hs : status ics_a <> FT) by discriminate.
  assert (Hc : In ics_a (collapse_future_duplicates [] [ics_a; ics_b])) by (vm_compute; left; reflexivity).
  exact (proj1 (H Hnd ics_a Ha Hs) Hc).
Defined.

(* ================================================================== *)
(** * Normalised text: [norm_text] and [slugify] *)

Section TextFacts.

Local Abbreviation L := list_ascii_of_string.

Lemma L_app s t : L (s ++ t) = (L s ++ L t)%list.
Proof. induction s as [|c s IH]; simpl; [reflexivity|]. rewrite IH; reflexivity. Qed.

Lemma L_rev s : L (rev_str s) = rev (L s).
Proof. induction s as [|c s IH]; simpl; [reflexivity|]. rewrite L_app, IH. reflexivity. Qed.

Lemma L_inj s t : L s = L t -> s = t.
Proof.
  intros H. rewrite <- (string_of_list_ascii_of_string s), <- (string_of_list_ascii_of_string t), H.
  reflexivity.
Qed.

Lemma rev_str_involutive s : rev_str (rev_str s) = s.
Proof. apply L_inj. rewrite !L_rev, rev_involutive. reflexivity. Qed.

Lemma append_assoc_str s t u : (s ++ (t ++ u)) = ((s ++ t) ++ u).
Proof. apply L_inj. rewrite !L_app, app_assoc. reflexivity. Qed.

Lemma no_double_cons p c s :
  no_double p (String c s) <->
  (forall d l, L s = d :: l -> p c = false \/ p d = false) /\ no_double p s.
Proof.
  split.
  - intros H. split.
    + intros d l E. apply (H [] l c d). simpl. rewrite E. reflexivity.
    + intros l1 l2 a b E. apply (H (c :: l1) l2 a b). simpl. rewrite E. reflexivity.
  - intros [H1 H2] l1 l2 a b E. destruct l1 as [|x l1]; simpl in E; injection E as E1 E2.
    + subst a. exact (H1 b l2 E2).
    + exact (H2 l1 l2 a b E2).
Qed.

Lemma no_double_nil p : no_double p "".
Proof. intros l1 l2 a b E. simpl in E. destruct l1; discriminate. Qed.

Lemma no_double_infix p s t pre post :
  L s = (pre ++ L t ++ post)%list -> no_double p s -> no_double p t.
Proof.
  intros E H l1 l2 a b E'. apply (H (pre ++ l1)%list (l2 ++ post)%list a b).
  rewrite E, E'. rewrite <- !app_assoc. reflexivity.
Qed.

Lemma no_double_rev p s : no_double p s -> no_double p (rev_str s).
Proof.
  intros H l1 l2 a b E. rewrite L_rev in E.
  apply (f_equal (@rev _)) in E. rewrite rev_involutive, rev_app_distr in E. simpl in E.
  rewrite <- !app_assoc in E. simpl in E.
  destruct (H (rev l2) (rev l1) b a E); [right|left]; assumption.
Qed.

Lemma lstrip_suffix p s : exists pre, L s = (pre ++ L (lstrip_by p s))%list.
Proof.
  induction s as [|c s IH]; simpl; [exists []; reflexivity|].
  destruct (p c); [|exists []; reflexivity].
  destruct IH as [pre E]. exists (c :: pre). simpl. rewrite E. reflexivity.
Qed.

Lemma lstrip_head p s c l : L (lstrip_by p s) = c :: l -> p c = false.
Proof.
  induction s as [|d s IH]; simpl; [discriminate|].
  destruct (p d) eqn:E; [exact IH|]. simpl. intros H; injection H as <- _. exact E.
Qed.

Lemma lstrip_id p s : (forall c l, L s = c :: l -> p c = false) -> lstrip_by p s = s.
Proof.
  destruct s as [|c s]; simpl; [reflexivity|]. intros H. rewrite (H c (L s) eq_refl). reflexivity.
Qed.

Lemma strip_by_spec p s :
  (exists pre post, L s = (pre ++ L (strip_by p s) ++ post)%list) /\ no_edge p (strip_by p s).
Proof.
  unfold strip_by.
  destruct (lstrip_suffix p s) as [pre E1].
  set (m := lstrip_by p s) in *.
  destruct (lstrip_suffix p (rev_str m)) as [pre2 E2].
  set (n := lstrip_by p (rev_str m)) in *.
  rewrite L_rev in E2.
  assert (Em : L m = (rev (L n) ++ rev pre2)%list).
  { rewrite <- (rev_involutive (L m)), E2, rev_app_distr. reflexivity. }
  split.
  - exists pre, (rev pre2). rewrite L_rev, E1, Em. reflexivity.
  - intros c l [H|H]; rewrite L_rev in H.
    + apply (lstrip_head p s c (l ++ rev pre2)). fold m. rewrite Em, H. reflexivity.
    + apply (lstrip_head p (rev_str m) c (rev l)). fold n.
      rewrite <- (rev_involutive (L n)), H, rev_app_distr. reflexivity.
Qed.

Lemma strip_by_id p s : no_edge p s -> strip_by p s = s.
Proof.
  intros H. unfold strip_by.
  rewrite (lstrip_id p s) by (intros c l E; apply (H c l); left; exact E).
  rewrite (lstrip_id p (rev_str s)).
  - apply rev_str_involutive.
  - intros c l E. rewrite L_rev in E. apply (H c (rev l)). right.
    rewrite <- (rev_involutive (L s)), E. reflexivity.
Qed.

Lemma sub_runs_forall (q : ascii -> Prop) p rep b s :
  Forall q (L rep) -> (forall c, In c (L s) -> p c = false -> q c) ->
  Forall q (L (sub_runs p rep b s)).
Proof.
  revert b. induction s as [|c s IH]; intros b Hr Hs; simpl; [constructor|].
  assert (Hs' : forall d, In d (L s) -> p d = false -> q d) by (intros d Hd; apply Hs; right; exact Hd).
  destruct (p c) eqn:E.
  - destruct b; [apply IH; auto|]. rewrite L_app. apply Forall_app. split; [exact Hr|apply IH; auto].
  - simpl. constructor; [apply Hs; [left; reflexivity|exact E]|apply IH; auto].
Qed.

Lemma sub_runs_no_double p r b s :
  p r = true ->
  no_double p (sub_runs p (String r "") b s) /\
  (b = true -> forall c l, L (sub_runs p (String r "") b s) = c :: l -> p c = false).
Proof.
  intros Hr. revert b. induction s as [|c s IH]; intros b; simpl.
  - split; [apply no_double_nil|discriminate].
  - destruct (p c) eqn:E.
    + destruct b; [apply IH|]. split; [|discriminate].
      apply no_double_cons. destruct (IH true) as [H1 H2]. split; [|exact H1].
      intros d l Hd. right. exact (H2 eq_refl d l Hd).
    + split.
      * apply no_double_cons. split; [intros; left; exact E|apply IH].
      * intros _ d l H. simpl in H. injection H as <- _. exact E.
Qed.

Lemma sub_runs_id p rep b s :
  (forall c, In c (L s) -> p c = true -> String c "" = rep) -> no_double p s ->
  (b = true -> forall c l, L s = c :: l -> p c = false) ->
  sub_runs p rep b s = s.
Proof.
  revert b. induction s as [|c s IH]; intros b Hc Hd Hb; simpl; [reflexivity|].
  apply no_double_cons in Hd as [Hd1 Hd2].
  assert (Hc' : forall d, In d (L s) -> p d = true -> String d "" = rep)
    by (intros d Hin; apply Hc; right; exact Hin).
  destruct (p c) eqn:E.
  - destruct b; [rewrite (Hb eq_refl c (L s) eq_refl) in E; discriminate|].
    rewrite (IH true Hc' Hd2).
    + rewrite <- (Hc c (or_introl eq_refl) E). reflexivity.
    + intros _ d l Hl. destruct (Hd1 d l Hl) as [H|H]; [congruence|exact H].
  - f_equal. apply IH; auto. discriminate.
Qed.

Lemma sub_runs_snoc p rep b s c :
  p c = false -> sub_runs p rep b (s ++ String c "") = (sub_runs p rep b s ++ String c "").
Proof.
  intros Hc. revert b. induction s as [|d s IH]; intros b; simpl.
  - rewrite Hc. reflexivity.
  - destruct (p d); [destruct b; [apply IH|] | ].
    + rewrite IH. apply append_assoc_str.
    + rewrite IH. reflexivity.
Qed.

Lemma remove_chars_forall p s : Forall (fun c => p c = false) (L (remove_chars p s)).
Proof.
  induction s as [|c s IH]; simpl; [constructor|].
  destruct (p c) eqn:E; [exact IH|]. constructor; [exact E|exact IH].
Qed.

Lemma remove_chars_id p s : Forall (fun c => p c = false) (L s) -> remove_chars p s = s.
Proof.
  induction s as [|c s IH]; simpl; intros H; [reflexivity|].
  inversion H as [|? ? Hc Hs]; subst. rewrite Hc, IH by exact Hs. reflexivity.
Qed.

Lemma lower_id s : Forall (fun c => is_upper c = false) (L s) -> lower s = s.
Proof.
  induction s as [|c s IH]; simpl; intros H; [reflexivity|].
  inversion H as [|? ? Hc Hs]; subst. unfold lower_char. rewrite Hc, IH by exact Hs. reflexivity.
Qed.

Lemma strip_diacritics_id s : Forall (fun c => (code c <? 128) = true) (L s) -> strip_diacritics s = s.
Proof.
  induction s as [|c s IH]; simpl; intros H; [reflexivity|].
  inversion H as [|? ? Hc Hs]; subst. rewrite Hc, IH by exact Hs. reflexivity.
Qed.

Lemma forall_infix (q : ascii -> Prop) s t pre post :
  L s = (pre ++ L t ++ post)%list -> Forall q (L s) -> Forall q (L t).
Proof. intros E H. rewrite E in H. apply Forall_app in H as [_ H]. apply Forall_app in H as [H _]. exact H. Qed.

End TextFacts.

Ltac all_chars := intros c; destruct c as [[] [] [] [] [] [] [] []]; reflexivity.

Lemma text_char_facts c :
  implb (text_char c) (negb (is_upper c) && (code c <? 128) && negb (non_alnum c)
                       && implb (py_isspace c) (Ascii.eqb c " "%char)) = true.
Proof. revert c; all_chars. Qed.

Lemma norm_chars_text c :
  implb (negb (non_alnum c) && (negb (py_isspace c) || Ascii.eqb c " "%char)) (text_char c) = true.
Proof. revert c; all_chars. Qed.

Lemma slug_char_facts c :
  implb (slug_char c) (negb (is_upper c) && (code c <? 128) && negb (non_alnum c)
                       && negb (py_isspace c) && implb (is_dash c) (Ascii.eqb c "-"%char)) = true.
Proof. revert c; all_chars. Qed.

Lemma slug_chars_from c :
  implb (negb (non_alnum c) && negb (py_isspace c)) (slug_char c) = true.
Proof. revert c; all_chars. Qed.

Section TextShape.

Local Abbreviation L := list_ascii_of_string.

Lemma slug_char_inv c :
  slug_char c = true ->
  is_upper c = false /\ (code c <? 128) = true /\ non_alnum c = false /\
  py_isspace c = false /\ (is_dash c = true -> c = "-"%char).
Proof.
  intros H. pose proof (slug_char_facts c) as F. rewrite H in F. simpl in F.
  apply andb_prop in F as [F F5]. apply andb_prop in F as [F F4].
  apply andb_prop in F as [F F3]. apply andb_prop in F as [F1 F2].
  apply negb_true_iff in F1, F3, F4.
  repeat split; auto. intros D. rewrite D in F5. simpl in F5. apply Ascii.eqb_eq. exact F5.
Qed.

Lemma text_char_inv c :
  text_char c = true ->
  is_upper c = false /\ (code c <? 128) = true /\ non_alnum c = false /\
  (py_isspace c = true -> c = " "%char).
Proof.
  intros H. pose proof (text_char_facts c) as F. rewrite H in F. simpl in F.
  apply andb_prop in F as [F F4]. apply andb_prop in F as [F F3].
  apply andb_prop in F as [F1 F2]. apply negb_true_iff in F1, F3.
  repeat split; auto. intros D. rewrite D in F4. simpl in F4. apply Ascii.eqb_eq. exact F4.
Qed.

Lemma sub_runs_none p rep b s : Forall (fun c => p c = false) (L s) -> sub_runs p rep b s = s.
Proof.
  revert b. induction s as [|c s IH]; intros b H; simpl; [reflexivity|].
  inversion H as [|? ? Hc Hs]; subst. rewrite Hc, IH by exact Hs. reflexivity.
Qed.

Lemma sub_runs_no_edge p r s :
  p r = true -> no_edge p s -> no_edge p (sub_runs p (String r "") false s).
Proof.
  intros Hr H c l [E|E].
  - destruct s as [|d s]; simpl in E; [discriminate|].
    assert (Hd : p d = false) by (apply (H d (L s)); left; reflexivity).
    rewrite Hd in E. simpl in E. injection E as <- _. exact Hd.
  - destruct (rev (L s)) as [|d m] eqn:R.
    + apply (f_equal (@rev _)) in R. rewrite rev_involutive in R. simpl in R.
      assert (s = "") by (apply L_inj; exact R). subst s. simpl in E.
      destruct l; discriminate.
    + assert (Es : L s = (rev m ++ [d])%list)
        by (rewrite <- (rev_involutive (L s)), R; reflexivity).
      assert (Hd : p d = false) by (apply (H d (rev m)); right; exact Es).
      assert (Ss : s = (string_of_list_ascii (rev m) ++ String d "")).
      { apply L_inj. rewrite L_app, list_ascii_of_string_of_list_ascii. exact Es. }
      rewrite Ss, sub_runs_snoc, L_app in E by exact Hd. simpl in E.
      apply app_inj_tail in E as [_ <-]. exact Hd.
Qed.

Lemma forall_in (q : ascii -> Prop) l c : Forall q l -> In c l -> q c.
Proof. intros H. revert c. apply Forall_forall. exact H. Qed.

End TextShape.

Lemma slugify_shape s :
  Forall (fun c => slug_char c = true) (list_ascii_of_string (slugify s)) /\
  no_edge is_dash (slugify s) /\ no_double is_dash (slugify s) /\
  slugify (slugify s) = slugify s.
Proof.
  set (v3 := remove_chars non_alnum (lower (strip_diacritics s))).
  set (v4 := sub_runs py_isspace "-" false v3).
  destruct (strip_by_spec is_dash v4) as [[pre [post E5]] Edge5].
  set (v5 := strip_by is_dash v4) in *.
  set (t := slugify s).
  assert (Tdef : t = sub_runs is_dash "-" false v5) by reflexivity. clearbody t.
  assert (F3 := remove_chars_forall non_alnum (lower (strip_diacritics s))). fold v3 in F3.
  assert (F4 : Forall (fun c => slug_char c = true) (list_ascii_of_string v4)).
  { apply sub_runs_forall; [repeat constructor|].
    intros c Hin Hs. pose proof (slug_chars_from c) as K.
    rewrite (forall_in _ _ c F3 Hin), Hs in K. exact K. }
  assert (F5 := forall_infix _ _ _ _ _ E5 F4).
  assert (Ft : Forall (fun c => slug_char c = true) (list_ascii_of_string t)).
  { rewrite Tdef. apply sub_runs_forall; [repeat constructor|].
    intros c Hin _. exact (forall_in _ _ c F5 Hin). }
  assert (Dt : no_double is_dash t) by (rewrite Tdef; apply (sub_runs_no_double is_dash "-"%char false v5); reflexivity).
  assert (Et : no_edge is_dash t) by (rewrite Tdef; apply sub_runs_no_edge; [reflexivity|exact Edge5]).
  split; [exact Ft|]. split; [exact Et|]. split; [exact Dt|].
  unfold slugify.
  assert (Inv : forall c, In c (list_ascii_of_string t) -> _) by (intros c Hin; exact (slug_char_inv c (forall_in _ _ c Ft Hin))).
  rewrite strip_diacritics_id
    by (apply Forall_forall; intros c Hin; apply (Inv c Hin)).
  rewrite lower_id by (apply Forall_forall; intros c Hin; apply (Inv c Hin)).
  rewrite remove_chars_id by (apply Forall_forall; intros c Hin; apply (Inv c Hin)).
  rewrite (sub_runs_none py_isspace "-" false t) by (apply Forall_forall; intros c Hin; apply (Inv c Hin)).
  rewrite strip_by_id by exact Et.
  apply sub_runs_id; [|exact Dt|discriminate].
  intros c Hin D. rewrite (proj2 (proj2 (proj2 (proj2 (Inv c Hin)))) D). reflexivity.
Qed.

(** [slugify] returns a slug: only [[a-z0-9-]], no ['-'] at either end, no two
    ['-'] in a row; and slugifying a slug changes nothing. *)
Theorem slugify_normal_form s :
  Forall (fun c => slug_char c = true) (list_ascii_of_string (slugify s)) /\
  no_edge is_dash (slugify s) /\ no_double is_dash (slugify s) /\
  slugify (slugify s) = slugify s.
Proof. exact (slugify_shape s). Qed.


Lemma norm_text_shape s :
  Forall (fun c => text_char c = true) (list_ascii_of_string (norm_text s)) /\
  no_edge py_isspace (norm_text s) /\ no_double py_isspace (norm_text s) /\
  norm_text (norm_text s) = norm_text s.
Proof.
  set (v3 := sub_runs non_alnum " " false (strip_diacritics (lower s))).
  set (v4 := sub_runs py_isspace " " false v3).
  destruct (strip_by_spec py_isspace v4) as [[pre [post E5]] Edge5].
  set (t := norm_text s).
  assert (Tdef : t = strip_by py_isspace v4) by reflexivity. clearbody t. rewrite <- Tdef in E5, Edge5.
  assert (F3 : Forall (fun c => non_alnum c = false \/ c = " "%char) (list_ascii_of_string v3)).
  { apply sub_runs_forall; [repeat constructor; right; reflexivity|]. intros c _ H; left; exact H. }
  assert (F4 : Forall (fun c => text_char c = true) (list_ascii_of_string v4)).
  { apply sub_runs_forall; [repeat constructor|].
    intros c Hin Hs. pose proof (norm_chars_text c) as K.
    destruct (forall_in _ _ c F3 Hin) as [N| ->]; [|reflexivity].
    rewrite N, Hs in K. exact K. }
  assert (Ft := forall_infix _ _ _ _ _ E5 F4).
  assert (D4 : no_double py_isspace v4)
    by (apply (sub_runs_no_double py_isspace " "%char false v3); reflexivity).
  assert (Dt := no_double_infix _ _ _ _ _ E5 D4).
  split; [exact Ft|]. split; [exact Edge5|]. split; [exact Dt|].
  unfold norm_text, strip.
  assert (Inv : forall c, In c (list_ascii_of_string t) -> _) by (intros c Hin; exact (text_char_inv c (forall_in _ _ c Ft Hin))).
  rewrite lower_id by (apply Forall_forall; intros c Hin; apply (Inv c Hin)).
  rewrite strip_diacritics_id by (apply Forall_forall; intros c Hin; apply (Inv c Hin)).
  rewrite (sub_runs_none non_alnum " " false t) by (apply Forall_forall; intros c Hin; apply (Inv c Hin)).
  rewrite sub_runs_id; [apply strip_by_id; exact Edge5| |exact Dt|discriminate].
  intros c Hin D. rewrite (proj2 (proj2 (proj2 (Inv c Hin))) D). reflexivity.
Qed.

(** [norm_text] returns only [[a-z0-9 -]], with no whitespace at either end
    and no two whitespace characters in a row; and normalising its result
    again changes nothing. *)
Theorem norm_text_normal_form s :
  Forall (fun c => text_char c = true) (list_ascii_of_string (norm_text s)) /\
  no_edge py_isspace (norm_text s) /\ no_double py_isspace (norm_text s) /\
  norm_text (norm_text s) = norm_text s.
Proof. exact (norm_text_shape s). Qed.


(* ================================================================== *)
(** * Tokens: [str.split] and [str.join] *)

Lemma split_on_nonempty sep s : exists w ws, split_on sep s = w :: ws.
Proof.
  induction s as [|c s IH]; simpl; [eauto|].
  destruct IH as (w & ws & ->). destruct (Ascii.eqb c sep); eauto.
Qed.

Lemma join_cons_string sep c w ws :
  join sep (String c w :: ws) = String c (join sep (w :: ws)).
Proof. destruct ws; reflexivity. Qed.

(** [sep.join(s.split(sep))] gives back [s]. *)
Lemma join_split sep s : join (String sep "") (split_on sep s) = s.
Proof.
  induction s as [|c s IH]; simpl; [reflexivity|].
  destruct (split_on_nonempty sep s) as (w & ws & E). rewrite E in *.
  destruct (Ascii.eqb c sep) eqn:Ec.
  - apply Ascii.eqb_eq in Ec; subst c.
    change (join (String sep "") ("" :: w :: ws)) with ("" ++ String sep "" ++ join (String sep "") (w :: ws)).
    rewrite IH. reflexivity.
  - rewrite join_cons_string, IH. reflexivity.
Qed.

(** When no token of the normalised name is a key of the table (or a key
    maps to itself), [map_irish_tokens] and [_norm_team] are [norm_text]:
    the lookup falls back to the token and splitting and re-joining on the
    space gives the text back. *)
Theorem norm_team_untranslated tbl s :
  (forall tok, In tok (split_on " "%char (norm_text s)) -> dict_get tbl tok tok = tok) ->
  map_irish_tokens tbl s = norm_text s /\ norm_team tbl s = norm_text s.
Proof.
  intros H.
  assert (E : map_irish_tokens tbl s = norm_text s).
  { unfold map_irish_tokens.
    rewrite map_ext_in with (g := fun tok => tok) by exact H.
    rewrite map_id. apply join_split. }
  split; [exact E|]. unfold norm_team. rewrite E.
  exact (proj2 (proj2 (proj2 (norm_text_shape s)))).
Qed.

(* ================================================================== *)
(** * [competitions_from_fixtures]: one entry per competition *)

Lemma map_opt_forall2 {A B} (f : A -> option B) l l' :
  map_opt f l = Some l' -> Forall2 (fun a b => f a = Some b) l l'.
Proof.
  revert l'; induction l as [|x l IH]; simpl; intros l' H.
  - inversion H; constructor.
  - destruct (f x) eqn:Ex, (map_opt f l) eqn:El; try discriminate.
    inversion H; subst. constructor; [exact Ex|apply IH; reflexivity].
Qed.

Lemma forall2_in_r {A B} (R : A -> B -> Prop) l l' b :
  Forall2 R l l' -> In b l' -> exists a, In a l /\ R a b.
Proof.
  induction 1 as [|a b' l l' Hr _ IH]; [intros []|].
  intros [<-|Hb]; [exists a; simpl; auto|]. destruct (IH Hb) as (x & Hx & Rx). exists x; simpl; auto.
Qed.

Lemma forall2_in_l {A B} (R : A -> B -> Prop) l l' a :
  Forall2 R l l' -> In a l -> exists b, In b l' /\ R a b.
Proof.
  induction 1 as [|a' b l l' Hr _ IH]; [intros []|].
  intros [<-|Ha]; [exists b; simpl; auto|]. destruct (IH Ha) as (x & Hx & Rx). exists x; simpl; auto.
Qed.

Lemma add_to_group_sizes {K A} (keqb : K -> K -> bool) k (a : A) gs :
  fold_right Nat.add 0%nat (map (fun kg => List.length (snd kg)) (add_to_group keqb k a gs)) =
  S (fold_right Nat.add 0%nat (map (fun kg => List.length (snd kg)) gs)).
Proof.
  induction gs as [|[k' g] gs IH]; simpl; [reflexivity|].
  destruct (keqb k k'); simpl; [rewrite length_app; simpl; lia|rewrite IH; lia].
Qed.

Lemma group_by_sizes {K A} (keqb : K -> K -> bool) (kxs : list (K * A)) :
  fold_right Nat.add 0%nat (map (fun kg => List.length (snd kg)) (group_by keqb kxs)) = List.length kxs.
Proof.
  induction kxs as [|ka kxs IH] using rev_ind; [reflexivity|].
  rewrite group_by_app, add_to_group_sizes, IH, length_app. simpl. lia.
Qed.

Lemma members_competition fixtures nm :
  members String.eqb nm (map (fun f => (competition f, f)) fixtures) =
  filter (fun f => String.eqb (competition f) nm) fixtures.
Proof.
  unfold members. induction fixtures as [|f fs IH]; simpl; [reflexivity|].
  destruct (String.eqb (competition f) nm); simpl; rewrite IH; reflexivity.
Qed.

Lemma sum_Z_perm l l' : Permutation l l' -> fold_right Z.add 0 l = fold_right Z.add 0 l'.
Proof. induction 1; simpl; lia. Qed.

Lemma competitions_counts ltu fixtures cs :
  competitions_from_fixtures ltu fixtures = Some cs ->
  NoDup (map name cs) /\
  (forall f, In f fixtures -> exists c, In c cs /\ name c = competition f) /\
  (forall c, In c cs ->
     slug c = slugify (name c) /\
     match_count c = Z.of_nat (List.length (filter (fun f => String.eqb (competition f) (name c)) fixtures)) /\
     1 <= match_count c) /\
  fold_right Z.add 0 (map match_count cs) = Z.of_nat (List.length fixtures).
Proof.
  unfold competitions_from_fixtures.
  set (kxs := map (fun f => (competition f, f)) fixtures).
  set (gs := group_by String.eqb kxs).
  match goal with |- context [map_opt ?F gs] => destruct (map_opt F gs) as [out|] eqn:E end;
    [|discriminate].
  intros H; inversion H; subst cs; clear H.
  apply map_opt_forall2 in E.
  assert (R : Forall2 (fun kg c => name c = fst kg /\ slug c = slugify (fst kg) /\
                                   match_count c = Z.of_nat (List.length (snd kg))) gs out).
  { refine (Forall2_impl _ _ E). intros [nm items] c Hf. simpl in Hf |- *.
    destruct (sort_chrono items) as [|first r]; [discriminate|].
    destruct (fromisoformat _) as [dt|]; [|discriminate].
    destruct (iso_z ltu dt); [|discriminate]. inversion Hf; subst; simpl; auto. }
  clear E.
  assert (P := sort_by_perm comp_before out).
  assert (Hnames : map name out = map fst gs).
  { clear P. induction R as [|kg c gs' out' [Hn _] _ IH]; simpl; [reflexivity|]. rewrite Hn, IH. reflexivity. }
  split; [|split; [|split]].
  - apply (Permutation_NoDup (Permutation_sym (Permutation_map name P))).
    rewrite Hnames. apply group_by_nodup, String.eqb_eq.
  - intros f Hf.
    assert (Hm : In f (members String.eqb (competition f) kxs)).
    { apply in_members; [apply String.eqb_eq|]. apply in_map_iff. exists f; auto. }
    assert (Hg : In (competition f, members String.eqb (competition f) kxs) gs).
    { apply in_group_by; [apply String.eqb_eq|]. split; [reflexivity|]. intros Hn; rewrite Hn in Hm; contradiction. }
    destruct (forall2_in_l _ _ _ _ R Hg) as (c & Hc & Hn & _).
    exists c. split; [|exact Hn]. apply (Permutation_in _ (Permutation_sym P)), Hc.
  - intros c Hc. apply (Permutation_in _ P) in Hc.
    destruct (forall2_in_r _ _ _ _ R Hc) as ([nm items] & Hg & Hn & Hs & Hk). simpl in *.
    apply in_group_by in Hg as [Hi Hne]; [|apply String.eqb_eq].
    rewrite Hn. split; [exact Hs|]. rewrite Hk.
    assert (L1 : (1 <= List.length items)%nat) by (destruct items; [contradiction|simpl; lia]).
    rewrite Hi in L1 |- *. unfold kxs in *. rewrite members_competition in L1 |- *.
    split; [reflexivity|lia].
  - rewrite (sum_Z_perm _ _ (Permutation_map match_count P)).
    rewrite <- (length_map (fun f => (competition f, f)) fixtures). fold kxs.
    rewrite <- (group_by_sizes String.eqb kxs). fold gs.
    clear P Hnames. induction R as [|kg c gs' out' (_ & _ & Hk) _ IH]; simpl; [reflexivity|].
    rewrite Hk, IH. lia.
Qed.

(** [competitions_from_fixtures], when it returns, gives one entry per
    competition name of the input: the names are pairwise distinct, every
    input competition has an entry, an entry's slug is the slug of its name,
    its [match_count] is the number of input fixtures of that competition
    (at least one), and the counts add up to the number of input fixtures. *)
Theorem competitions_from_fixtures_counts ltu fixtures cs :
  competitions_from_fixtures ltu fixtures = Some cs ->
  NoDup (map name cs) /\
  (forall f, In f fixtures -> exists c, In c cs /\ name c = competition f) /\
  (forall c, In c cs ->
     slug c = slugify (name c) /\
     match_count c = Z.of_nat (List.length (filter (fun f => String.eqb (competition f) (name c)) fixtures)) /\
     1 <= match_count c) /\
  fold_right Z.add 0 (map match_count cs) = Z.of_nat (List.length fixtures).
Proof. exact (competitions_counts ltu fixtures cs). Qed.


(* ================================================================== *)
(** * [dedupe]: output shape and the error case *)

Lemma map_opt_none {A B} (f : A -> option B) l :
  map_opt f l = None <-> exists a, In a l /\ f a = None.
Proof.
  induction l as [|x l IH]; simpl.
  - split; [discriminate|intros (a & [] & _)].
  - destruct (f x) eqn:Ex.
    + destruct (map_opt f l) eqn:El.
      * split; [discriminate|]. intros (a & [<-|Ha] & Hfa); [congruence|].
        discriminate (proj2 IH (ex_intro _ a (conj Ha Hfa))).
      * split; [intros _|reflexivity]. destruct (proj1 IH eq_refl) as (a & Ha & Hfa). eauto.
    + split; [intros _; exists x; auto|reflexivity].
Qed.

Lemma dedupe_out_facts tbl xs ys :
  dedupe tbl xs = Some ys ->
  incl ys xs /\ NoDup (map (fixture_key tbl) ys) /\ LocallySorted (not_after chrono_before) ys.
Proof.
  intros Hd. destruct (dedupe_unfold tbl xs ys Hd) as (kxs & Hkx & Hys).
  split; [|split].
  - intros y Hy. apply (in_dedupe_out tbl xs kxs ys y Hkx Hys) in Hy as (k & g & Hg & Hc).
    apply choose_in in Hc. apply (in_group_by key_eqb key_eqb_iff) in Hg as [-> _].
    apply (in_members key_eqb key_eqb_iff) in Hc.
    apply keyed_spec in Hkx as [Hs _]. rewrite <- Hs. apply (in_map snd) in Hc. exact Hc.
  - rewrite Hys. unfold sort_chrono.
    eapply Permutation_NoDup; [apply Permutation_map, Permutation_sym, sort_by_perm|].
    apply picks_nodup.
    + apply group_by_nodup. exact key_eqb_iff.
    + intros k g y Hg Hy; exact (in_group_key tbl xs kxs k g y Hkx Hg Hy).
  - rewrite Hys. apply (sort_by_sorted chrono_before chrono_before_asym).
Qed.

(** [dedupe] returns a sub-collection of its input, sorted by
    [(date, time)], in which no two fixtures share a grouping key; so it
    never returns more fixtures than it was given. *)
Theorem dedupe_output_shape tbl xs ys :
  dedupe tbl xs = Some ys ->
  incl ys xs /\ NoDup (map (fixture_key tbl) ys) /\
  LocallySorted (not_after chrono_before) ys /\ (List.length ys <= List.length xs)%nat.
Proof.
  intros Hd. destruct (dedupe_out_facts tbl xs ys Hd) as (Hi & Hn & Hs).
  split; [exact Hi|]. split; [exact Hn|]. split; [exact Hs|].
  apply NoDup_incl_length; [exact (NoDup_map_inv _ _ Hn)|exact Hi].
Qed.


(* ================================================================== *)
(** * [_best_time_bucket] *)

Lemma round_div_5_eq m : round_div m 5 = (m + 2) / 5.
Proof.
  unfold round_div. pose proof (Z.div_mod m 5 ltac:(lia)) as Hm.
  pose proof (Z.mod_pos_bound m 5 ltac:(lia)) as Hb.
  set (q := m / 5) in *. set (r := m mod 5) in *.
  destruct (Z.ltb_spec (2 * r) 5).
  - apply Z.div_unique with (r + 2); lia.
  - destruct (Z.ltb_spec 5 (2 * r)); [|lia].
    apply Z.div_unique with (r - 3); lia.
Qed.

(** On minute counts of the day ([0 <= m < 1440]) [_best_time_bucket]
    rounds the minute count [m] half up to a multiple of 5 (a tie cannot
    occur), and a later time never gets an earlier bucket. *)
Theorem best_time_bucket_monotone t1 t2 m1 m2 :
  minutes t1 = Some m1 -> minutes t2 = Some m2 -> 0 <= m1 -> m1 <= m2 -> m2 < 1440 ->
  best_time_bucket t1 = Some ((m1 + 2) / 5 * 5) /\
  best_time_bucket t2 = Some ((m2 + 2) / 5 * 5) /\
  (m1 + 2) / 5 * 5 <= (m2 + 2) / 5 * 5.
Proof.
  intros H1 H2 H0 Hle H1440.
  rewrite (best_time_bucket_day t1 m1 H1 ltac:(lia)), (best_time_bucket_day t2 m2 H2 ltac:(lia)),
    !round_div_5_eq.
  split; [reflexivity|]. split; [reflexivity|].
  apply Z.mul_le_mono_nonneg_r; [lia|]. apply Z.div_le_mono; lia.
Qed.

(* ================================================================== *)
(** * [_norm_time_str] *)

Lemma digit_facts c :
  implb (is_digit c) (negb (py_isspace c) && negb (code c =? 43) && negb (code c =? 45)
                      && (0 <=? digit_val c) && (digit_val c <? 10)) = true.
Proof. revert c; all_chars. Qed.

Lemma digit_inv c :
  is_digit c = true ->
  py_isspace c = false /\ (code c =? 43) = false /\ (code c =? 45) = false /\
  0 <= digit_val c < 10.
Proof.
  intros H. pose proof (digit_facts c) as F. rewrite H in F. simpl in F.
  repeat rewrite andb_true_iff in F. rewrite !negb_true_iff, Z.leb_le, Z.ltb_lt in F.
  destruct F as ((((F1 & F2) & F3) & F4) & F5). auto.
Qed.

Lemma py_int_digit1 a :
  is_digit a = true -> py_int (String a "") = Some (digit_val a).
Proof.
  intros Ha. destruct (digit_inv a Ha) as (S & P & M & _).
  unfold py_int, strip. rewrite strip_by_id.
  - cbv iota beta. rewrite P, M. unfold parse_digits. simpl. rewrite Ha. reflexivity.
  - intros c l [E|E]; simpl in E.
    + injection E as <- _. exact S.
    + destruct l as [|x l]; simpl in E; [injection E as <-; exact S|].
      injection E as _ E. destruct l; discriminate.
Qed.

Lemma py_int_digit2 a b :
  is_digit a = true -> is_digit b = true ->
  py_int (String a (String b "")) = Some (10 * digit_val a + digit_val b).
Proof.
  intros Ha Hb. destruct (digit_inv a Ha) as (Sa & Pa & Ma & _).
  destruct (digit_inv b Hb) as (Sb & _ & _ & _).
  unfold py_int, strip. rewrite strip_by_id.
  - cbv iota beta. rewrite Pa, Ma. unfold parse_digits. simpl. rewrite Ha, Hb. simpl. f_equal; lia.
  - intros c l [E|E]; simpl in E.
    + injection E as <- _. exact Sa.
    + destruct l as [|x [|y [|z l]]]; simpl in E; try discriminate.
      injection E as _ <-. exact Sb.
Qed.

Lemma time_match_at_groups l g1 g2 :
  time_match_at l = Some (g1, g2) ->
  ((exists a, is_digit a = true /\ g1 = String a "") \/
   (exists a b, is_digit a = true /\ is_digit b = true /\ g1 = String a (String b ""))) /\
  (exists d e, is_digit d = true /\ is_digit e = true /\ g2 = String d (String e "")).
Proof.
  unfold time_match_at, time_match2, time_match1.
  destruct l as [|a [|b [|c [|d [|e l]]]]]; try discriminate.
  - destruct (is_digit a && is_time_sep b && is_digit c && is_digit d) eqn:E; [|discriminate].
    intros H; injection H as <- <-. repeat rewrite andb_true_iff in E.
    destruct E as (((? & ?) & ?) & ?). split; [left|]; eauto 6.
  - destruct (is_digit a && is_digit b && is_time_sep c && is_digit d && is_digit e) eqn:E2.
    + intros H; injection H as <- <-. repeat rewrite andb_true_iff in E2.
      destruct E2 as ((((? & ?) & ?) & ?) & ?). split; [right|]; eauto 7.
    + destruct (is_digit a && is_time_sep b && is_digit c && is_digit d) eqn:E; [|discriminate].
      intros H; injection H as <- <-. repeat rewrite andb_true_iff in E.
      destruct E as (((? & ?) & ?) & ?). split; [left|]; eauto 6.
Qed.

Lemma time_search_groups l g1 g2 :
  time_search l = Some (g1, g2) ->
  ((exists a, is_digit a = true /\ g1 = String a "") \/
   (exists a b, is_digit a = true /\ is_digit b = true /\ g1 = String a (String b ""))) /\
  (exists d e, is_digit d = true /\ is_digit e = true /\ g2 = String d (String e "")).
Proof.
  induction l as [|x l IH]; simpl; [discriminate|].
  destruct (time_match_at (x :: l)) as [[h m]|] eqn:E.
  - intros H; injection H as <- <-. exact (time_match_at_groups _ _ _ E).
  - exact IH.
Qed.

Lemma hhmm_table h m :
  0 <= h < 24 -> 0 <= m < 60 ->
  minutes (pad 2 h ++ ":" ++ pad 2 m) = Some (h * 60 + m) /\
  norm_time_str (pad 2 h ++ ":" ++ pad 2 m) = Some (pad 2 h ++ ":" ++ pad 2 m).
Proof.
  intros Hh Hm.
  assert (T : hhmm_table_ok = true) by (vm_compute; reflexivity).
  unfold hhmm_table_ok in T. rewrite forallb_forall in T.
  specialize (T h (in_zrange 24 h ltac:(lia))). rewrite forallb_forall in T.
  specialize (T m (in_zrange 60 m ltac:(lia))). simpl in T.
  destruct (minutes _), (norm_time_str _); try discriminate.
  apply andb_true_iff in T as [T1 T2]. apply Z.eqb_eq in T1. apply String.eqb_eq in T2.
  subst. split; reflexivity.
Qed.

Lemma norm_time_str_result s :
  exists h m, 0 <= h < 24 /\ 0 <= m < 60 /\ norm_time_str s = Some (pad 2 h ++ ":" ++ pad 2 m).
Proof.
  unfold norm_time_str.
  destruct (time_search (list_ascii_of_string (strip s))) as [[g1 g2]|] eqn:E;
    [|exists 0, 0; split; [lia|split; [lia|reflexivity]]].
  destruct (time_search_groups _ _ _ E) as [G1 (d & e & Hd & He & ->)].
  rewrite (py_int_digit2 d e Hd He).
  assert (H1 : exists h, py_int g1 = Some h /\ 0 <= h).
  { destruct G1 as [(a & Ha & ->)|(a & b & Ha & Hb & ->)].
    - rewrite (py_int_digit1 a Ha). pose proof (digit_inv a Ha). eexists; split; [reflexivity|lia].
    - rewrite (py_int_digit2 a b Ha Hb). pose proof (digit_inv a Ha). pose proof (digit_inv b Hb).
      eexists; split; [reflexivity|lia]. }
  destruct H1 as (h & -> & Hh).
  pose proof (digit_inv d Hd). pose proof (digit_inv e He).
  destruct ((h <? 24) && (10 * digit_val d + digit_val e <? 60)) eqn:B.
  - apply andb_true_iff in B as [B1 B2]. rewrite Z.ltb_lt in B1, B2.
    exists h, (10 * digit_val d + digit_val e). split; [lia|split; [lia|reflexivity]].
  - exists 0, 0. split; [lia|split; [lia|reflexivity]].
Qed.

(** [_norm_time_str] never raises and always returns a time ["HH:MM"] with
    [HH < 24] and [MM < 60] (["00:00"] when it finds none): [_minutes]
    reads it as [HH * 60 + MM], and normalising it again changes nothing. *)
Theorem norm_time_str_canonical s :
  exists h m, 0 <= h < 24 /\ 0 <= m < 60 /\
    norm_time_str s = Some (pad 2 h ++ ":" ++ pad 2 m) /\
    minutes (pad 2 h ++ ":" ++ pad 2 m) = Some (h * 60 + m) /\
    norm_time_str (pad 2 h ++ ":" ++ pad 2 m) = Some (pad 2 h ++ ":" ++ pad 2 m).
Proof.
  destruct (norm_time_str_result s) as (h & m & Hh & Hm & E).
  exists h, m. destruct (hhmm_table h m Hh Hm) as [T1 T2]. auto.
Qed.

(* ================================================================== *)
(** * [london_weekend_for] and [weekend_top_competitions] *)

Lemma shifted_year_step y :
  let F y := (y / 400) * 146097 + (y - y / 400 * 400) * 365 + (y - y / 400 * 400) / 4
             - (y - y / 400 * 400) / 100 in
  F (y + 1) = F y + 365 + (if is_leap (y + 1) then 1 else 0).
Proof.
  intros F. unfold F, is_leap.
  pose proof (Z.div_mod y 400 ltac:(lia)) as Dy. pose proof (Z.mod_pos_bound y 400 ltac:(lia)) as By.
  set (q := y / 400) in *. set (r := y mod 400) in *.
  assert (Hq : y - q * 400 = r) by lia. rewrite Hq.
  destruct (Z.eq_dec r 399) as [E|E].
  - assert (Q1 : (y + 1) / 400 = q + 1) by (symmetry; apply Z.div_unique with 0; lia).
    rewrite Q1. replace (y + 1 - (q + 1) * 400) with 0 by lia.
    replace ((y + 1) mod 400) with 0 by (apply Z.mod_unique with (q + 1); lia).
    rewrite E. rewrite orb_true_r.
    change (399 / 4) with 99. change (399 / 100) with 3. change (0 / 4) with 0. change (0 / 100) with 0. lia.
  - assert (Q1 : (y + 1) / 400 = q) by (symmetry; apply Z.div_unique with (r + 1); lia).
    rewrite Q1. replace (y + 1 - q * 400) with (r + 1) by lia.
    replace ((y + 1) mod 400) with (r + 1) by (apply Z.mod_unique with q; lia).
    replace ((y + 1) mod 4) with ((r + 1) mod 4)
      by (replace (y + 1) with ((r + 1) + (q * 100) * 4) by lia; rewrite Z.mod_add; lia).
    replace ((y + 1) mod 100) with ((r + 1) mod 100)
      by (replace (y + 1) with ((r + 1) + (q * 4) * 100) by lia; rewrite Z.mod_add; lia).
    replace ((r + 1 =? 0)) with false by (symmetry; apply Z.eqb_neq; lia).
    rewrite orb_false_r.
    pose proof (Z.div_mod r 4 ltac:(lia)). pose proof (Z.mod_pos_bound r 4 ltac:(lia)).
    pose proof (Z.div_mod r 100 ltac:(lia)). pose proof (Z.mod_pos_bound r 100 ltac:(lia)).
    destruct (Z.eq_dec (r mod 4) 3) as [E4|E4].
    + assert (A4 : (r + 1) / 4 = r / 4 + 1) by (symmetry; apply Z.div_unique with 0; lia).
      assert (M4 : (r + 1) mod 4 = 0) by (symmetry; apply Z.mod_unique with (r / 4 + 1); lia).
      rewrite A4, M4. simpl.
      destruct (Z.eq_dec (r mod 100) 99) as [E100|E100].
      * assert (A100 : (r + 1) / 100 = r / 100 + 1) by (symmetry; apply Z.div_unique with 0; lia).
        assert (M100 : (r + 1) mod 100 = 0) by (symmetry; apply Z.mod_unique with (r / 100 + 1); lia).
        rewrite A100, M100. simpl. lia.
      * assert (A100 : (r + 1) / 100 = r / 100) by (symmetry; apply Z.div_unique with (r mod 100 + 1); lia).
        assert (M100 : (r + 1) mod 100 = r mod 100 + 1) by (symmetry; apply Z.mod_unique with (r / 100); lia).
        rewrite A100, M100. replace (r mod 100 + 1 =? 0) with false by (symmetry; apply Z.eqb_neq; lia).
        simpl. lia.
    + assert (A4 : (r + 1) / 4 = r / 4) by (symmetry; apply Z.div_unique with (r mod 4 + 1); lia).
      assert (M4 : (r + 1) mod 4 = r mod 4 + 1) by (symmetry; apply Z.mod_unique with (r / 4); lia).
      rewrite A4, M4. replace (r mod 4 + 1 =? 0) with false by (symmetry; apply Z.eqb_neq; lia).
      simpl.
      assert (E100 : r mod 100 <> 99).
      { intros E9. apply E4. replace r with ((r / 100) * 100 + 99) by lia.
        rewrite Z.add_comm. replace ((r / 100) * 100) with ((r / 100 * 25) * 4) by lia.
        rewrite Z.mod_add; [reflexivity|lia]. }
      assert (A100 : (r + 1) / 100 = r / 100) by (symmetry; apply Z.div_unique with (r mod 100 + 1); lia).
      rewrite A100. lia.
Qed.

Lemma days_from_civil_next d d' :
  valid_date d -> next_day d = Some d' -> days_from_civil d' = days_from_civil d + 1.
Proof.
  unfold valid_date, next_day. intros Hv H.
  destruct d as [y m dd]; simpl in *.
  destruct (Z.ltb_spec dd (days_in_month y m)).
  { injection H as <-. unfold days_from_civil; simpl. lia. }
  destruct (Z.ltb_spec m 12).
  - injection H as <-. assert (dd = days_in_month y m) by lia. subst dd.
    assert (m = 1 \/ m = 2 \/ m = 3 \/ m = 4 \/ m = 5 \/ m = 6 \/ m = 7 \/ m = 8 \/ m = 9 \/
            m = 10 \/ m = 11) as Hm by lia.
    pose proof (shifted_year_step (y - 1)) as S. simpl in S. replace (y - 1 + 1) with y in S by lia.
    unfold days_from_civil; simpl.
    destruct Hm as [->|[->|[->|[->|[->|[->|[->|[->|[->|[->| ->]]]]]]]]]]; unfold days_in_month; simpl;
      try lia.
    destruct (is_leap y); lia.
  - destruct (Z.ltb_spec y 9999); [|discriminate]. injection H as <-.
    assert (m = 12) by lia. subst m. unfold days_in_month in *. simpl in *.
    assert (dd = 31) by lia. subst dd. unfold days_from_civil; simpl.
    replace (y + 1 - 1) with y by lia. lia.
Qed.


Lemma iter_next_days k d a :
  valid_date d -> iter_opt next_day k d = Some a ->
  valid_date a /\ days_from_civil a = days_from_civil d + Z.of_nat k.
Proof.
  revert d. induction k as [|k IH]; intros d Hv H; simpl in H.
  - injection H as <-. split; [exact Hv|lia].
  - destruct (next_day d) as [e|] eqn:E; [|discriminate].
    pose proof (days_from_civil_next d e Hv E) as De.
    destruct (IH e (proj1 (next_day_spec d e Hv E)) H) as [H1 H2]. split; [exact H1|lia].
Qed.

Lemma add_days_fwd d k a :
  valid_date d -> 0 <= k -> add_days d k = Some a ->
  valid_date a /\ days_from_civil a = days_from_civil d + k.
Proof.
  intros Hv Hk H. unfold add_days in H. destruct (Z.leb_spec 0 k); [|lia].
  destruct (iter_next_days _ _ _ Hv H) as [H1 H2]. rewrite Z2Nat.id in H2 by lia. auto.
Qed.

Lemma london_weekend_facts d sat sun :
  valid_date d -> london_weekend_for d = Some (sat, sun) ->
  valid_date sat /\ valid_date sun /\ date_weekday sat = 5 /\ date_weekday sun = 6 /\
  days_from_civil sat = days_from_civil d + (5 - date_weekday d) mod 7 /\
  days_from_civil sun = days_from_civil sat + 1.
Proof.
  intros Hv H. unfold london_weekend_for in H.
  pose proof (Z.mod_pos_bound (5 - date_weekday d) 7 ltac:(lia)) as Hb.
  destruct (add_days d ((5 - date_weekday d) mod 7)) as [s|] eqn:Es; [|discriminate].
  destruct (add_days s 1) as [u|] eqn:Eu; [|discriminate].
  injection H as <- <-.
  destruct (add_days_fwd _ _ _ Hv (proj1 Hb) Es) as [Vs Ds].
  destruct (add_days_fwd s 1 u Vs ltac:(lia) Eu) as [Vu Du].
  assert (W : date_weekday s = 5).
  { unfold date_weekday at 1. rewrite Ds. unfold date_weekday.
    replace (days_from_civil d + (5 - (days_from_civil d + 3) mod 7) mod 7 + 3)
      with ((days_from_civil d + 3) + (5 - (days_from_civil d + 3) mod 7) mod 7) by lia.
    rewrite Z.add_mod_idemp_r by lia. rewrite <- Z.add_mod_idemp_l by lia.
    replace ((days_from_civil d + 3) mod 7 + (5 - (days_from_civil d + 3) mod 7)) with 5 by lia.
    reflexivity. }
  refine (conj Vs (conj Vu (conj W (conj _ (conj Ds Du))))).
  unfold date_weekday in *. rewrite Du.
  replace (days_from_civil s + 1 + 3) with ((days_from_civil s + 3) + 1) by lia.
  rewrite <- Z.add_mod_idemp_l, W by lia. reflexivity.
Qed.

(** [london_weekend_for] returns a Saturday and the Sunday after it:
    [(5 - dt.weekday()) % 7] days after [dt], so the same day on a Saturday
    and six days later on a Sunday (the next weekend, not the current one). *)
Theorem london_weekend_for_spec d sat sun :
  valid_date d -> london_weekend_for d = Some (sat, sun) ->
  valid_date sat /\ valid_date sun /\ date_weekday sat = 5 /\ date_weekday sun = 6 /\
  days_from_civil sat = days_from_civil d + (5 - date_weekday d) mod 7 /\
  days_from_civil sun = days_from_civil sat + 1 /\
  (date_weekday d = 5 -> sat = d) /\
  (date_weekday d = 6 -> days_from_civil sat = days_from_civil d + 6).
Proof.
  intros Hv H. destruct (london_weekend_facts d sat sun Hv H) as (V1 & V2 & W1 & W2 & D1 & D2).
  do 6 (split; [assumption|]). split.
  - intros W. unfold london_weekend_for in H. rewrite W in H. simpl in H.
    destruct (add_days d 0) eqn:E; [|discriminate]. unfold add_days in E. simpl in E.
    injection E as E. subst d0.
    destruct (add_days d 1); [|discriminate]. injection H as <- _. reflexivity.
  - intros W. rewrite D1, W. reflexivity.
Qed.

Lemma nodup_firstn {A} n (l : list A) : NoDup l -> NoDup (firstn n l).
Proof.
  intros H. rewrite <- (firstn_skipn n l) in H. exact (NoDup_app_remove_r _ _ H).
Qed.

(** [weekend_top_competitions] returns at most three competitions with
    distinct names, each of them the competition of some input fixture
    dated, as a string, between the Saturday and the Sunday that
    [london_weekend_for] gives for [today]. *)
Theorem weekend_top_competitions_spec ltu fixtures today cs sat sun :
  weekend_top_competitions ltu fixtures today = Some cs ->
  london_weekend_for today = Some (sat, sun) ->
  (List.length cs <= 3)%nat /\ NoDup (map name cs) /\
  forall c, In c cs -> exists f, In f fixtures /\ competition f = name c /\
    str_le (iso_date sat) (date f) = true /\ str_le (date f) (iso_date sun) = true.
Proof.
  unfold weekend_top_competitions. intros H Hw. rewrite Hw in H.
  destruct (competitions_from_fixtures ltu _) as [comps|] eqn:Ec; [|discriminate].
  assert (Hcs : cs = firstn 3 comps) by congruence. clear H. subst cs.
  destruct (competitions_counts _ _ _ Ec) as (Hn & _ & Hc & _).
  split; [apply firstn_le_length|]. split.
  - rewrite <- firstn_map. apply nodup_firstn, Hn.
  - intros c Hin. apply (firstn_in 3) in Hin.
    destruct (Hc c Hin) as (_ & Hk & H1).
    destruct (filter _ (filter _ fixtures)) as [|f r] eqn:Ef; [simpl in Hk; lia|].
    assert (Hf : In f (f :: r)) by (left; reflexivity). rewrite <- Ef in Hf.
    apply filter_In in Hf as [Hf Hname]. apply filter_In in Hf as [Hf Hd].
    apply andb_true_iff in Hd as [Hd1 Hd2]. apply String.eqb_eq in Hname.
    exists f. auto.
Qed.

(* ================================================================== *)
(** * [build_cmd]: the published lists *)

Lemma nodup_map_filter {A B} (g : A -> B) (p : A -> bool) l :
  NoDup (map g l) -> NoDup (map g (filter p l)).
Proof.
  induction l as [|x l IH]; simpl; intros H; [constructor|].
  inversion H as [|? ? Hx Hl]; subst.
  destruct (p x); simpl; [|apply IH, Hl].
  constructor; [|apply IH, Hl].
  intros Hin. apply Hx. apply in_map_iff in Hin as (y & Hy & Hyin).
  apply filter_In in Hyin as [Hyin _]. rewrite <- Hy. apply in_map, Hyin.
Qed.

Lemma nodup_map_sort {A B} (before : A -> A -> bool) (g : A -> B) l :
  NoDup (map g l) -> NoDup (map g (sort_by before l)).
Proof.
  intros H. apply (Permutation_NoDup (Permutation_sym (Permutation_map g (sort_by_perm before l)))).
  exact H.
Qed.

Lemma collapse_nodup {B} tbl (g : Fixture -> B) l :
  NoDup (map g l) -> NoDup (map g (collapse_future_duplicates tbl l)).
Proof.
  intros H. unfold collapse_future_duplicates, sort_chrono.
  apply nodup_map_sort, nodup_map_filter, H.
Qed.

Lemma select_windows_nodup {B} (g : Fixture -> B) cfg today m up rec :
  NoDup (map g m) -> select_windows cfg today m = Some (up, rec) ->
  NoDup (map g up) /\ NoDup (map g rec).
Proof.
  intros Hn. unfold select_windows.
  destruct (add_days today (- results_days_back cfg)) as [sr|]; [|discriminate].
  destruct (add_days today (days_forward cfg)) as [ef|]; [|discriminate].
  destruct (add_days today (scraper_days_forward cfg)) as [es|]; [|discriminate].
  destruct (filter (in_recent _ _) m) as [|r rs] eqn:Er.
  - destruct (add_days today (- results_fallback_days cfg)) as [co|]; [|discriminate].
    intros H. assert (Hu : up = filter (in_upcoming (iso_date today) (iso_date ef) (iso_date es)) m)
      by congruence.
    assert (Hr : rec = firstn 50 (sort_by chrono_desc_before
              (filter (fun f => status_eqb (status f) FT && str_le (iso_date co) (date f)) m)))
      by congruence.
    clear H. subst up rec. split; [apply nodup_map_filter, Hn|].
    rewrite <- firstn_map. apply nodup_firstn, nodup_map_sort, nodup_map_filter, Hn.
  - intros H; injection H as <- <-. split; [apply nodup_map_filter, Hn|].
    rewrite <- Er. apply nodup_map_filter, Hn.
Qed.

Lemma select_windows_recent cfg today m up rec :
  select_windows cfg today m = Some (up, rec) ->
  forall f, In f rec -> status f = FT \/ strip (score_text f) <> "".
Proof.
  unfold select_windows.
  destruct (add_days today (- results_days_back cfg)) as [sr|]; [|discriminate].
  destruct (add_days today (days_forward cfg)) as [ef|]; [|discriminate].
  destruct (add_days today (scraper_days_forward cfg)) as [es|]; [|discriminate].
  destruct (filter (in_recent _ _) m) as [|r rs] eqn:Er.
  - destruct (add_days today (- results_fallback_days cfg)) as [co|]; [|discriminate].
    intros H f Hf. assert (Hr : rec = firstn 50 (sort_by chrono_desc_before
              (filter (fun f => status_eqb (status f) FT && str_le (iso_date co) (date f)) m)))
      by congruence.
    rewrite Hr in Hf. apply (firstn_in 50) in Hf.
    apply (Permutation_in _ (sort_by_perm chrono_desc_before _)) in Hf.
    apply filter_In in Hf as [_ Hf]. apply andb_true_iff in Hf as [Hf _].
    left. apply status_eqb_true, Hf.
  - intros H f Hf. injection H as _ <-. rewrite <- Er in Hf.
    apply filter_In in Hf as [_ Hf]. unfold in_recent in Hf.
    apply andb_true_iff in Hf as [_ Hf]. apply orb_true_iff in Hf as [Hf|Hf].
    + left. apply status_eqb_true, Hf.
    + right. intros E. rewrite E in Hf. discriminate.
Qed.

(** What [build_cmd] publishes: every upcoming or result fixture comes from
    the input (with its search index rebuilt), has no placeholder team, and
    carries a normalised search index ([[a-z0-9 -]], no whitespace at either
    end or twice in a row); no two upcoming fixtures, and no two results,
    share a [dedupe] key; every result is full time or has a non-blank
    score; and the competitions have distinct names and counts adding up to
    the number of upcoming fixtures. *)
Theorem build_outputs ltu tbl cfg today fixtures up rec comps :
  build ltu tbl cfg today fixtures = Some (up, rec, comps) ->
  (forall f, In f (up ++ rec)%list ->
     In f (map (build_search_index tbl) fixtures) /\
     is_placeholder_team (home f) = false /\ is_placeholder_team (away f) = false /\
     exists t, search_index f = Some t /\
       Forall (fun c => text_char c = true) (list_ascii_of_string t) /\
       no_edge py_isspace t /\ no_double py_isspace t) /\
  NoDup (map (fixture_key tbl) up) /\ NoDup (map (fixture_key tbl) rec) /\
  (forall f, In f rec -> status f = FT \/ strip (score_text f) <> "") /\
  NoDup (map name comps) /\
  fold_right Z.add 0 (map match_count comps) = Z.of_nat (List.length up).
Proof.
  intros Hb. unfold build in Hb.
  destruct (dedupe tbl (map (build_search_index tbl) fixtures)) as [merged|] eqn:Ed; [|discriminate].
  destruct (select_windows cfg today _) as [[u r]|] eqn:Ew; [|discriminate].
  destruct (competitions_from_fixtures ltu u) as [cs|] eqn:Ec; [|discriminate].
  injection Hb as <- <- <-.
  destruct (dedupe_out_facts _ _ _ Ed) as (Hincl & Hnd & _).
  destruct (select_windows_sub _ _ _ _ _ Ew) as [Hu Hr].
  destruct (competitions_counts _ _ _ Ec) as (Hcn & _ & _ & Hsum).
  destruct (select_windows_nodup (fixture_key tbl) _ _ _ _ _
              (collapse_nodup tbl _ _ (nodup_map_filter _ _ _ Hnd)) Ew) as [Nu Nr].
  split; [|split; [exact Nu|split; [exact Nr|split; [exact (select_windows_recent _ _ _ _ _ Ew)|
    split; [exact Hcn|exact Hsum]]]]].
  intros f Hf.
  assert (Hm : In f (collapse_future_duplicates tbl
             (filter (fun f => negb (is_placeholder_team (home f)
                                     || is_placeholder_team (away f))) merged)))
    by (apply in_app_or in Hf; destruct Hf; auto).
  apply collapse_sub, filter_In in Hm. destruct Hm as [Hm Hp].
  apply negb_true_iff, orb_false_iff in Hp. destruct Hp as [Hh Ha].
  apply Hincl in Hm. split; [exact Hm|]. split; [exact Hh|]. split; [exact Ha|].
  apply in_map_iff in Hm as (f0 & <- & _).
  eexists. split; [reflexivity|].
  destruct (norm_text_shape (join " " [home f0; away f0; competition f0;
              match venue f0 with Some v => v | None => "" end] ++ " " ++
              map_irish_tokens tbl (join " " [home f0; away f0; competition f0;
              match venue f0 with Some v => v | None => "" end]))) as (H1 & H2 & H3 & _).
  auto.
Qed.

(* ===================================================================== *)
(** * The calendar and ISO round trip of [competitions_from_fixtures] *)

Lemma civil_table :
  forallb (fun yoe => forallb (fun mp => forallb (fun dd => civil_cell yoe mp dd)
    (map Z.succ (zrange 31))) (zrange 12)) (zrange 400) = true.
Proof. vm_compute. reflexivity. Qed.

Lemma civil_from_days_parts z :
  civil_from_days z =
  let era := (z + 719468) / 146097 in
  let doe := z + 719468 - era * 146097 in
  match civil_parts doe with
  | (yoe, mp, dd) =>
      let m := if mp <? 10 then mp + 3 else mp - 9 in
      mkDate (if m <=? 2 then yoe + era * 400 + 1 else yoe + era * 400) m dd
  end.
Proof. reflexivity. Qed.

Lemma is_leap_400 k y : is_leap (k * 400 + y) = is_leap y.
Proof.
  unfold is_leap.
  replace (k * 400 + y) with (y + (k * 100) * 4) by ring. rewrite Z.mod_add by lia.
  replace (y + (k * 100) * 4) with (y + (k * 4) * 100) by ring. rewrite Z.mod_add by lia.
  replace (y + (k * 4) * 100) with (y + k * 400) by ring. rewrite Z.mod_add by lia.
  reflexivity.
Qed.

Lemma days_in_month_400 k y m : days_in_month (k * 400 + y) m = days_in_month y m.
Proof. unfold days_in_month. rewrite is_leap_400. reflexivity. Qed.

Lemma civil_from_days_of_civil d :
  valid_date d -> civil_from_days (days_from_civil d) = d.
Proof.
  destruct d as [Y M D]. unfold valid_date. simpl. intros (_ & HM & HD).
  assert (HMc : M = 1 \/ M = 2 \/ M = 3 \/ M = 4 \/ M = 5 \/ M = 6 \/ M = 7 \/ M = 8 \/
                M = 9 \/ M = 10 \/ M = 11 \/ M = 12) by lia.
  set (y' := if M <=? 2 then Y - 1 else Y).
  set (era := y' / 400). set (yoe := y' - era * 400). set (mp := (M + 9) mod 12).
  assert (Hyoe : 0 <= yoe < 400).
  { unfold yoe, era. rewrite <- Zmod_eq_full by lia. apply Z.mod_pos_bound. lia. }
  assert (Hy' : y' = era * 400 + yoe) by (unfold yoe; ring).
  assert (Hdfc : days_from_civil (mkDate Y M D) + 719468 = era * 146097 + doe_of yoe mp D).
  { unfold days_from_civil, doe_of. simpl. fold y' era yoe mp. ring. }
  assert (Hmp : 0 <= mp < 12) by (apply Z.mod_pos_bound; lia).
  assert (HMmp : M = (if mp <? 10 then mp + 3 else mp - 9) /\
                 Y = (if mp <? 10 then y' else y' + 1)).
  { unfold mp, y'. destruct HMc as [->|[->|[->|[->|[->|[->|[->|[->|[->|[->|[->| ->]]]]]]]]]]];
      simpl; split; lia. }
  destruct HMmp as [HMm HYm].
  assert (HDm : D <= days_in_month (if mp <? 10 then yoe else yoe + 1)
                                   (if mp <? 10 then mp + 3 else mp - 9)).
  { rewrite <- HMm. rewrite HYm, Hy' in HD.
    destruct (mp <? 10); [|rewrite <- Z.add_assoc in HD]; rewrite days_in_month_400 in HD; exact (proj2 HD). }
  pose proof (days_in_month_bounds (if mp <? 10 then yoe else yoe + 1)
                                   (if mp <? 10 then mp + 3 else mp - 9)) as Hb.
  pose proof civil_table as T.
  rewrite forallb_forall in T. specialize (T yoe (in_zrange 400 yoe ltac:(lia))).
  rewrite forallb_forall in T. specialize (T mp (in_zrange 12 mp Hmp)).
  rewrite forallb_forall in T. specialize (T D).
  assert (HDin : In D (map Z.succ (zrange 31))).
  { apply in_map_iff. exists (D - 1). split; [lia|apply in_zrange; lia]. }
  specialize (T HDin). unfold civil_cell in T.
  apply Z.leb_le in HDm. rewrite HDm in T. change (implb true ?x = true) with (x = true) in T.
  destruct (civil_parts (doe_of yoe mp D)) as [[a b] c] eqn:Ec.
  cbv iota beta in T.
  rewrite !andb_true_iff, Z.leb_le, Z.ltb_lt, !Z.eqb_eq in T.
  destruct T as ((Hd0 & Hd1) & ((-> & ->) & ->)).
  rewrite civil_from_days_parts. cbv zeta. rewrite Hdfc.
  replace ((era * 146097 + doe_of yoe mp D) / 146097) with era
    by (apply Z.div_unique with (doe_of yoe mp D); [left; split; assumption | ring]).
  replace (era * 146097 + doe_of yoe mp D - era * 146097) with (doe_of yoe mp D) by ring.
  rewrite Ec. rewrite <- HMm. f_equal.
  rewrite HYm, Hy'.
  unfold mp in HMm |- *. destruct HMc as [->|[->|[->|[->|[->|[->|[->|[->|[->|[->|[->| ->]]]]]]]]]]];
    simpl; lia.
Qed.

Lemma digit_char_ok k :
  0 <= k <= 9 -> is_digit (digit_char k) = true /\ digit_val (digit_char k) = k.
Proof.
  intros Hk.
  assert (k = 0 \/ k = 1 \/ k = 2 \/ k = 3 \/ k = 4 \/ k = 5 \/ k = 6 \/ k = 7 \/ k = 8 \/ k = 9)
    as [->|[->|[->|[->|[->|[->|[->|[->|[->| ->]]]]]]]]] by lia; split; reflexivity.
Qed.

Lemma pad2_chain v :
  pad 2 v = String (digit_char (v / 10 mod 10)) (String (digit_char (v mod 10)) "").
Proof. reflexivity. Qed.

Lemma pad4_chain v :
  pad 4 v = String (digit_char (v / 10 / 10 / 10 mod 10)) (String (digit_char (v / 10 / 10 mod 10))
              (String (digit_char (v / 10 mod 10)) (String (digit_char (v mod 10)) ""))).
Proof. reflexivity. Qed.

Lemma digit_bound v : 0 <= v mod 10 <= 9.
Proof. pose proof (Z.mod_pos_bound v 10). lia. Qed.

Lemma fixed_digits_2 x1 x2 :
  is_digit x1 = true -> is_digit x2 = true ->
  fixed_digits (String x1 (String x2 "")) = Some (10 * digit_val x1 + digit_val x2).
Proof.
  intros H1 H2. unfold fixed_digits. cbn -[is_digit digit_val]. rewrite H1, H2. reflexivity.
Qed.

Lemma fixed_digits_4 x1 x2 x3 x4 :
  is_digit x1 = true -> is_digit x2 = true -> is_digit x3 = true -> is_digit x4 = true ->
  fixed_digits (String x1 (String x2 (String x3 (String x4 "")))) =
    Some (10 * (10 * (10 * digit_val x1 + digit_val x2) + digit_val x3) + digit_val x4).
Proof.
  intros H1 H2 H3 H4. unfold fixed_digits. cbn -[is_digit digit_val].
  rewrite H1, H2, H3, H4. reflexivity.
Qed.

Lemma fixed_digits_pad2 v :
  0 <= v < 100 ->
  fixed_digits (String (digit_char (v / 10 mod 10)) (String (digit_char (v mod 10)) "")) = Some v.
Proof.
  intros Hv.
  destruct (digit_char_ok _ (digit_bound (v / 10))) as [I1 V1].
  destruct (digit_char_ok _ (digit_bound v)) as [I2 V2].
  rewrite (fixed_digits_2 _ _ I1 I2), V1, V2. f_equal.
  pose proof (Z.div_mod v 10 ltac:(lia)). pose proof (Z.div_mod (v / 10) 10 ltac:(lia)).
  assert (v / 10 / 10 = 0) by (rewrite Z.div_div by lia; apply Z.div_small; lia).
  lia.
Qed.

Lemma fixed_digits_pad4 v :
  0 <= v < 10000 ->
  fixed_digits (String (digit_char (v / 10 / 10 / 10 mod 10)) (String (digit_char (v / 10 / 10 mod 10))
    (String (digit_char (v / 10 mod 10)) (String (digit_char (v mod 10)) "")))) = Some v.
Proof.
  intros Hv.
  destruct (digit_char_ok _ (digit_bound (v / 10 / 10 / 10))) as [I1 V1].
  destruct (digit_char_ok _ (digit_bound (v / 10 / 10))) as [I2 V2].
  destruct (digit_char_ok _ (digit_bound (v / 10))) as [I3 V3].
  destruct (digit_char_ok _ (digit_bound v)) as [I4 V4].
  rewrite (fixed_digits_4 _ _ _ _ I1 I2 I3 I4), V1, V2, V3, V4. f_equal.
  pose proof (Z.div_mod v 10 ltac:(lia)). pose proof (Z.div_mod (v / 10) 10 ltac:(lia)).
  pose proof (Z.div_mod (v / 10 / 10) 10 ltac:(lia)). pose proof (Z.div_mod (v / 10 / 10 / 10) 10 ltac:(lia)).
  assert (v / 10 / 10 / 10 / 10 = 0) by (rewrite !Z.div_div by lia; apply Z.div_small; lia).
  lia.
Qed.

Lemma fromisoformat_iso d h mi :
  valid_date d -> 0 <= h < 24 -> 0 <= mi < 60 ->
  fromisoformat (iso_date d ++ "T" ++ (pad 2 h ++ ":" ++ pad 2 mi) ++ ":00") = Some (d, h, mi, 0).
Proof.
  destruct d as [Y M D]. intros V Hh Hm. unfold valid_date in V. simpl in V.
  destruct V as (HY & HM & HD).
  pose proof (days_in_month_bounds Y M).
  unfold iso_date. simpl year. simpl month. simpl day.
  rewrite pad4_chain, !pad2_chain. cbn [String.append].
  unfold fromisoformat. cbn -[fixed_digits days_in_month digit_char Z.div Z.modulo].
  rewrite (fixed_digits_pad4 Y), (fixed_digits_pad2 M), (fixed_digits_pad2 D), (fixed_digits_pad2 h),
    (fixed_digits_pad2 mi) by lia.
  replace (fixed_digits "00") with (Some 0) by reflexivity.
  repeat match goal with
  | |- context [?a <=? ?b] => replace (a <=? b) with true by (symmetry; apply Z.leb_le; lia)
  | |- context [?a <? ?b] => replace (a <? b) with true by (symmetry; apply Z.ltb_lt; lia)
  end.
  reflexivity.
Qed.

Lemma next_prev_day d p :
  valid_date d -> prev_day d = Some p -> next_day p = Some d.
Proof.
  destruct d as [y m dd]. unfold valid_date, prev_day, next_day. simpl. intros Hv H.
  pose proof (days_in_month_bounds y (m - 1)).
  destruct (Z.ltb_spec 1 dd).
  { injection H as <-. simpl. destruct (Z.ltb_spec (dd - 1) (days_in_month y m)); [|lia].
    f_equal. f_equal. lia. }
  destruct (Z.ltb_spec 1 m).
  { injection H as <-. simpl. rewrite Z.ltb_irrefl.
    destruct (Z.ltb_spec (m - 1) 12); [|lia]. f_equal. f_equal; lia. }
  destruct (Z.ltb_spec 1 y); [|discriminate]. injection H as <-. simpl.
  replace (days_in_month (y - 1) 12) with 31 by reflexivity. simpl.
  destruct (Z.ltb_spec (y - 1) 9999); [|lia]. f_equal. f_equal; lia.
Qed.

Lemma days_from_civil_prev d :
  valid_date d -> d <> mkDate 1 1 1 ->
  exists p, valid_date p /\ days_from_civil p = days_from_civil d - 1.
Proof.
  intros Hv Hn. destruct (prev_day d) as [p|] eqn:E.
  - exists p. destruct (prev_day_spec d p Hv E) as [Vp _]. split; [exact Vp|].
    pose proof (days_from_civil_next p d Vp (next_prev_day d p Hv E)). lia.
  - exfalso. apply Hn. destruct d as [y m dd]. unfold valid_date, prev_day in *. simpl in *.
    destruct (Z.ltb_spec 1 dd); [discriminate|].
    destruct (Z.ltb_spec 1 m); [discriminate|].
    destruct (Z.ltb_spec 1 y); [discriminate|]. f_equal; lia.
Qed.

Lemma year_ok_day d s :
  valid_date d -> 0 <= s < 86400 -> year_ok (days_from_civil d * 86400 + s) = true.
Proof.
  intros V Hs. unfold year_ok.
  replace ((days_from_civil d * 86400 + s) / 86400) with (days_from_civil d)
    by (apply Z.div_unique with s; lia).
  rewrite civil_from_days_of_civil by exact V.
  destruct V as [Hy _]. apply andb_true_iff. split; apply Z.leb_le; lia.
Qed.

(** on a UTC host [local_to_seconds] is the identity, provided [local]
    does not fail on [t] or on the day before *)
Lemma local_to_seconds_utc t :
  year_ok t = true -> year_ok (t - 86400) = true -> local_to_seconds (fun u => u) t = Some t.
Proof.
  intros H1 H2. unfold local_to_seconds, local_chk. cbv beta zeta.
  rewrite H1. replace (t - (t - t)) with t by ring. rewrite H1, Z.eqb_refl, H2.
  replace (t - 86400 - (t - 86400)) with (t - t) by ring. rewrite Z.eqb_refl. reflexivity.
Qed.

Lemma iso_z_utc d h mi :
  valid_date d -> d <> mkDate 1 1 1 -> 0 <= h < 24 -> 0 <= mi < 60 ->
  iso_z (fun u => u) (d, h, mi, 0) = Some (iso_date d ++ "T" ++ (pad 2 h ++ ":" ++ pad 2 mi) ++ ":00Z").
Proof.
  intros V Hn Hh Hm.
  destruct (days_from_civil_prev d V Hn) as (p & Vp & Dp).
  assert (Ew : wall_seconds (d, h, mi, 0) = days_from_civil d * 86400 + (h * 3600 + mi * 60))
    by (unfold wall_seconds; ring).
  assert (Y1 : year_ok (wall_seconds (d, h, mi, 0)) = true)
    by (rewrite Ew; apply year_ok_day; [exact V|lia]).
  assert (Y2 : year_ok (wall_seconds (d, h, mi, 0) - 86400) = true).
  { replace (wall_seconds (d, h, mi, 0) - 86400) with
      (days_from_civil p * 86400 + (h * 3600 + mi * 60)) by lia.
    apply year_ok_day; [exact Vp|lia]. }
  unfold iso_z. cbv zeta. rewrite (local_to_seconds_utc _ Y1 Y2).
  replace (wall_seconds (d, h, mi, 0) - (wall_seconds (d, h, mi, 0) - wall_seconds (d, h, mi, 0)))
    with (wall_seconds (d, h, mi, 0)) by ring.
  rewrite Y1. f_equal. unfold format_utc, wall_seconds.
  replace ((days_from_civil d * 86400 + h * 3600 + mi * 60 + 0) mod 86400) with (h * 3600 + mi * 60)
    by (apply Z.mod_unique with (days_from_civil d); lia).
  replace ((days_from_civil d * 86400 + h * 3600 + mi * 60 + 0) / 86400) with (days_from_civil d)
    by (apply Z.div_unique with (h * 3600 + mi * 60); lia).
  rewrite civil_from_days_of_civil by exact V.
  replace ((h * 3600 + mi * 60) / 3600) with h by (apply Z.div_unique with (mi * 60); lia).
  replace ((h * 3600 + mi * 60) mod 3600) with (mi * 60) by (apply Z.mod_unique with h; lia).
  replace (mi * 60 / 60) with mi by (apply Z.div_unique with 0; lia).
  replace ((h * 3600 + mi * 60) mod 60) with 0 by (apply Z.mod_unique with (h * 60 + mi); lia).
  rewrite <- !append_assoc_str. reflexivity.
Qed.

(** on 0001-01-01 the probe one day earlier asks [localtime] for year 0 *)
Lemma iso_z_utc_jan1 h mi :
  0 <= h < 24 -> 0 <= mi < 60 -> iso_z (fun u => u) (mkDate 1 1 1, h, mi, 0) = None.
Proof.
  intros Hh Hm.
  assert (V : valid_date (mkDate 1 1 1)) by (unfold valid_date, days_in_month, is_leap; simpl; lia).
  assert (Y1 : year_ok (wall_seconds (mkDate 1 1 1, h, mi, 0)) = true).
  { replace (wall_seconds (mkDate 1 1 1, h, mi, 0))
      with (days_from_civil (mkDate 1 1 1) * 86400 + (h * 3600 + mi * 60))
      by (unfold wall_seconds; ring).
    apply year_ok_day; [exact V|lia]. }
  assert (Y2 : year_ok (wall_seconds (mkDate 1 1 1, h, mi, 0) - 86400) = false).
  { unfold year_ok, wall_seconds.
    replace ((days_from_civil (mkDate 1 1 1) * 86400 + h * 3600 + mi * 60 + 0 - 86400) / 86400)
      with (days_from_civil (mkDate 1 1 1) - 1)
      by (apply Z.div_unique with (h * 3600 + mi * 60); lia).
    reflexivity. }
  unfold iso_z, local_to_seconds, local_chk. cbv beta zeta. rewrite Y1.
  set (t := wall_seconds (mkDate 1 1 1, h, mi, 0)) in *.
  replace (t - (t - t)) with t by ring. rewrite Y1, Z.eqb_refl, Y2. reflexivity.
Qed.

(** On a host whose local zone is UTC, the kick-off string that
    [competitions_from_fixtures] builds from a fixture's ISO date and
    ["HH:MM"] time, [iso_z(datetime.fromisoformat(f"{date}T{time}:00"))],
    parses without error and prints back the same date and time with
    [":00Z"] appended, except on 0001-01-01, where [astimezone] raises
    [ValueError]. *)
Theorem first_kickoff_utc_round_trip d h mi :
  valid_date d -> 0 <= h < 24 -> 0 <= mi < 60 ->
  fromisoformat (iso_date d ++ "T" ++ (pad 2 h ++ ":" ++ pad 2 mi) ++ ":00") = Some (d, h, mi, 0) /\
  (d <> mkDate 1 1 1 ->
   iso_z (fun u => u) (d, h, mi, 0) = Some (iso_date d ++ "T" ++ (pad 2 h ++ ":" ++ pad 2 mi) ++ ":00Z")) /\
  (d = mkDate 1 1 1 -> iso_z (fun u => u) (d, h, mi, 0) = None).
Proof.
  intros V Hh Hm. split; [apply fromisoformat_iso; assumption|split].
  - intros Hn. apply iso_z_utc; assumption.
  - intros ->. apply iso_z_utc_jan1; assumption.
Qed.

Lemma chrono_not_after_trans a b c :
  not_after chrono_before a b -> not_after chrono_before b c -> not_after chrono_before a c.
Proof.
  unfold not_after, chrono_before. intros H1 H2. destruct cmp_str2_ok as [Ha _].
  destruct (cmp_str2 (date c, time c) (date a, time a)) eqn:E; auto.
  exfalso. apply (cmp_le_trans cmp_str2 cmp_str2_ok (date a, time a) (date b, time b) (date c, time c)).
  - rewrite Ha. destruct (cmp_str2 (date b, time b) (date a, time a)); simpl; congruence.
  - rewrite Ha. destruct (cmp_str2 (date c, time c) (date b, time b)); simpl; congruence.
  - rewrite Ha, E. reflexivity.
Qed.

(** On a host whose local zone is UTC and for fixtures whose dates are
    valid ISO dates other than 0001-01-01 and whose times are ["HH:MM"],
    [competitions_from_fixtures] never fails, and each competition's
    [first_kickoff] is [f"{date}T{time}:00Z"] of a fixture of that
    competition that no other fixture of it precedes in (date, time)
    order. *)
Theorem competitions_first_kickoff_utc fixtures :
  (forall f, In f fixtures -> exists d h mi, valid_date d /\ d <> mkDate 1 1 1 /\
      0 <= h < 24 /\ 0 <= mi < 60 /\ date f = iso_date d /\ time f = pad 2 h ++ ":" ++ pad 2 mi) ->
  exists cs, competitions_from_fixtures (fun u => u) fixtures = Some cs /\
    forall c, In c cs -> exists f, In f fixtures /\ competition f = name c /\
      first_kickoff c = date f ++ "T" ++ time f ++ ":00Z" /\
      forall g, In g fixtures -> competition g = name c -> chrono_before g f = false.
Proof.
  intros Hwf. unfold competitions_from_fixtures.
  set (kxs := map (fun f => (competition f, f)) fixtures).
  set (gs := group_by String.eqb kxs).
  assert (Hgs : forall nm items, In (nm, items) gs ->
            items = filter (fun f => String.eqb (competition f) nm) fixtures /\ items <> []).
  { intros nm items Hg. apply in_group_by in Hg as [Hi Hne]; [|apply String.eqb_eq].
    unfold kxs in Hi. rewrite members_competition in Hi. split; [exact Hi|]. congruence. }
  assert (Hfirst : forall nm items first r, In (nm, items) gs -> sort_chrono items = first :: r ->
            In first fixtures /\ competition first = nm /\
            forall g, In g fixtures -> competition g = nm -> chrono_before g first = false).
  { intros nm items first r Hg Es. destruct (Hgs nm items Hg) as [Hi _].
    assert (Hin : In first items).
    { apply (Permutation_in _ (sort_by_perm chrono_before items)). unfold sort_chrono in Es.
      rewrite Es. left. reflexivity. }
    rewrite Hi in Hin. apply filter_In in Hin as [Hin Hc]. apply String.eqb_eq in Hc.
    split; [exact Hin|split; [exact Hc|]].
    intros g Hg' Hcg.
    apply (sort_by_head_max chrono_before chrono_before_asym chrono_not_after_trans items first r Es).
    rewrite Hi. apply filter_In. split; [exact Hg'|]. apply String.eqb_eq, Hcg. }
  match goal with |- context [map_opt ?F gs] => destruct (map_opt F gs) as [out|] eqn:E end.
  - exists (sort_by comp_before out). split; [reflexivity|].
    intros c Hc. apply (Permutation_in _ (sort_by_perm _ _)) in Hc.
    destruct (map_opt_in _ _ _ E c Hc) as ([nm items] & Hg & Hf). cbv beta in Hf. simpl fst in Hf. simpl snd in Hf.
    destruct (sort_chrono items) as [|first r] eqn:Es; [discriminate|].
    destruct (Hfirst nm items first r Hg Es) as (Hin & Hc' & Hmin).
    destruct (Hwf first Hin) as (d & h & mi & V & Hn & Hh & Hm & Ed & Et).
    rewrite Ed, Et, (fromisoformat_iso d h mi V Hh Hm), (iso_z_utc d h mi V Hn Hh Hm) in Hf.
    injection Hf as <-.
    exists first. cbn [first_kickoff name]. rewrite Ed, Et.
    split; [exact Hin|split; [exact Hc'|split; [reflexivity|exact Hmin]]].
  - exfalso. apply map_opt_none in E as ([nm items] & Hg & Hf). cbv beta in Hf. simpl fst in Hf. simpl snd in Hf.
    destruct (sort_chrono items) as [|first r] eqn:Es.
    + destruct (Hgs nm items Hg) as [_ Hne]. apply Hne.
      apply Permutation_nil. rewrite <- Es. unfold sort_chrono. apply sort_by_perm.
    + destruct (Hfirst nm items first r Hg Es) as (Hin & _ & _).
      destruct (Hwf first Hin) as (d & h & mi & V & Hn & Hh & Hm & Ed & Et).
      rewrite Ed, Et, (fromisoformat_iso d h mi V Hh Hm), (iso_z_utc d h mi V Hn Hh Hm) in Hf.
      discriminate.
Qed.

(* ===================================================================== *)
(** * Witnesses for the properties above *)

Lemma norm_team_untranslated_witness :
  norm_team [("ciarrai", "kerry")] "St. Brigid's" = "st brigid s".
Proof.
  destruct (norm_team_untranslated [("ciarrai", "kerry")] "St. Brigid's") as [_ E].
  - intros tok H. vm_compute in H.
    destruct H as [<-|[<-|[<-|[]]]]; reflexivity.
  - rewrite E. vm_compute. reflexivity.
Defined.

Lemma competitions_from_fixtures_counts_witness :
  competitions_from_fixtures (fun w => w) [div2_fx; aisfc_fx; aisfc_fx] =
    Some [mkCompetition "All-Ireland Senior Football Championship"
            "all-ireland-senior-football-championship" 100 2 "2025-07-20T15:30:00Z";
          mkCompetition "Division 2 League" "division-2-league" 30 1 "2025-03-02T14:00:00Z"] /\
  fold_right Z.add 0 (map match_count
    [mkCompetition "All-Ireland Senior Football Championship"
       "all-ireland-senior-football-championship" 100 2 "2025-07-20T15:30:00Z";
     mkCompetition "Division 2 League" "division-2-league" 30 1 "2025-03-02T14:00:00Z"]) = 3.
Proof.
  assert (E : competitions_from_fixtures (fun w => w) [div2_fx; aisfc_fx; aisfc_fx] =
    Some [mkCompetition "All-Ireland Senior Football Championship"
            "all-ireland-senior-football-championship" 100 2 "2025-07-20T15:30:00Z";
          mkCompetition "Division 2 League" "division-2-league" 30 1 "2025-03-02T14:00:00Z"])
    by (vm_compute; reflexivity).
  split; [exact E|].
  destruct (competitions_from_fixtures_counts _ _ _ E) as (_ & _ & _ & S).
  exact S.
Defined.

Lemma dedupe_output_shape_witness :
  dedupe [] [prio_a; prio_b] = Some [prio_b] /\ incl [prio_b] [prio_a; prio_b].
Proof.
  assert (E : dedupe [] [prio_a; prio_b] = Some [prio_b]) by (vm_compute; reflexivity).
  split; [exact E|].
  exact (proj1 (dedupe_output_shape _ _ _ E)).
Defined.

Lemma best_time_bucket_monotone_witness :
  best_time_bucket "19:32" = Some 1170 /\ best_time_bucket "19:34" = Some 1175.
Proof.
  destruct (best_time_bucket_monotone "19:32" "19:34" 1172 1174) as (B1 & B2 & _).
  - reflexivity.
  - reflexivity.
  - lia.
  - lia.
  - lia.
  - rewrite B1, B2. split; reflexivity.
Defined.

Lemma london_weekend_for_spec_witness :
  london_weekend_for (mkDate 2025 11 2) = Some (mkDate 2025 11 8, mkDate 2025 11 9) /\
  date_weekday (mkDate 2025 11 8) = 5 /\ date_weekday (mkDate 2025 11 9) = 6.
Proof.
  assert (E : london_weekend_for (mkDate 2025 11 2) = Some (mkDate 2025 11 8, mkDate 2025 11 9))
    by (vm_compute; reflexivity).
  assert (V : valid_date (mkDate 2025 11 2))
    by (unfold valid_date, days_in_month, is_leap; simpl; lia).
  destruct (london_weekend_for_spec _ _ _ V E) as (_ & _ & W1 & W2 & _).
  exact (conj E (conj W1 W2)).
Defined.

Lemma weekend_top_competitions_spec_witness :
  weekend_top_competitions (fun w => w) [nov15_fx; nov16_fx; ft_fx; div2_fx] (mkDate 2025 11 10) =
    Some [mkCompetition "Ulster SFC" "ulster-sfc" 80 2 "2025-11-15T13:00:00Z"] /\
  london_weekend_for (mkDate 2025 11 10) = Some (mkDate 2025 11 15, mkDate 2025 11 16) /\
  (List.length [mkCompetition "Ulster SFC" "ulster-sfc" 80 2 "2025-11-15T13:00:00Z"] <= 3)%nat.
Proof.
  assert (E : weekend_top_competitions (fun w => w) [nov15_fx; nov16_fx; ft_fx; div2_fx] (mkDate 2025 11 10) =
    Some [mkCompetition "Ulster SFC" "ulster-sfc" 80 2 "2025-11-15T13:00:00Z"])
    by (vm_compute; reflexivity).
  assert (W : london_weekend_for (mkDate 2025 11 10) = Some (mkDate 2025 11 15, mkDate 2025 11 16))
    by (vm_compute; reflexivity).
  exact (conj E (conj W (proj1 (weekend_top_competitions_spec _ _ _ _ _ _ E W)))).
Defined.

Lemma build_outputs_witness :
  build (fun w => w) [] win_cfg (mkDate 2025 11 1) [nov15_fx; blank_fx; ft_fx] =
    Some ([build_search_index [] nov15_fx], [build_search_index [] ft_fx],
          [mkCompetition "Ulster SFC" "ulster-sfc" 80 1 "2025-11-15T13:00:00Z"]) /\
  NoDup (map (fixture_key []) [build_search_index [] nov15_fx]).
Proof.
  assert (E : build (fun w => w) [] win_cfg (mkDate 2025 11 1) [nov15_fx; blank_fx; ft_fx] =
    Some ([build_search_index [] nov15_fx], [build_search_index [] ft_fx],
          [mkCompetition "Ulster SFC" "ulster-sfc" 80 1 "2025-11-15T13:00:00Z"]))
    by (vm_compute; reflexivity).
  exact (conj E (proj1 (proj2 (build_outputs _ _ _ _ _ _ _ _ E)))).
Defined.

Lemma first_kickoff_utc_round_trip_witness :
  fromisoformat "2025-07-20T15:30:00" = Some (mkDate 2025 7 20, 15, 30, 0) /\
  iso_z (fun u => u) (mkDate 2025 7 20, 15, 30, 0) = Some "2025-07-20T15:30:00Z" /\
  iso_z (fun u => u) (mkDate 1 1 1, 15, 30, 0) = None.
Proof.
  assert (V : valid_date (mkDate 2025 7 20))
    by (unfold valid_date, days_in_month, is_leap; simpl; lia).
  assert (V1 : valid_date (mkDate 1 1 1)) by (unfold valid_date, days_in_month, is_leap; simpl; lia).
  destruct (first_kickoff_utc_round_trip (mkDate 2025 7 20) 15 30 V) as (A & B & _); [lia|lia|].
  destruct (first_kickoff_utc_round_trip (mkDate 1 1 1) 15 30 V1) as (_ & _ & C); [lia|lia|].
  split; [exact A|split; [apply B; discriminate|apply C; reflexivity]].
Defined.

Lemma competitions_first_kickoff_utc_witness :
  exists cs, competitions_from_fixtures (fun u => u) [div2_fx; aisfc_fx] = Some cs /\
    forall c, In c cs -> exists f, In f [div2_fx; aisfc_fx] /\ competition f = name c /\
      first_kickoff c = date f ++ "T" ++ time f ++ ":00Z" /\
      forall g, In g [div2_fx; aisfc_fx] -> competition g = name c -> chrono_before g f = false.
Proof.
  apply competitions_first_kickoff_utc.
  intros f [<-|[<-|[]]].
  - exists (mkDate 2025 3 2), 14, 0.
    refine (conj _ (conj _ (conj _ (conj _ (conj eq_refl eq_refl))))); [| |lia|lia].
    + unfold valid_date, days_in_month, is_leap; simpl; lia.
    + discriminate.
  - exists (mkDate 2025 7 20), 15, 30.
    refine (conj _ (conj _ (conj _ (conj _ (conj eq_refl eq_refl))))); [| |lia|lia].
    + unfold valid_date, days_in_month, is_leap; simpl; lia.
    + discriminate.
Defined.
